(** * A file-backed JSON record store with a fluent query builder

    Shallow embedding of [Controller.ts] (the [WriteLock], [QueryBuilder] and
    [JsonFileStore] classes) and of the [TodoSchema] of its demo driver,
    followed by the laws the specification states about them.

    Conventions of the embedding:
    - a record in the file is a finite map from property names to JSON values
      ([Obj]); equality of maps is extensional, which is what deep equality
      of plain objects is;
    - JSON numbers are restricted to integers ([Z]), standing for the numbers
      that [JSON.parse] returns exactly; nested arrays and objects do not
      occur as field values;
    - what a validator returns and what a caller passes need not be JSON data:
      such records are maps to values of the program ([RtObj]), which may be
      [undefined], a [Date] or a number that is not finite; [Runtime] has
      [create] and [update] on them, writing their JSON image, and on JSON
      data they are the methods of [JsonFileStore];
    - the library that validates is not in the repository; the demo's schema
      is given for its versions 3 and 4, which differ in the partial form;
    - [Array.prototype.sort] is an insertion sort, which is what the language
      fixes for a consistent comparator; the laws about the order of the
      result are stated for keys that hold strings, where it is one;
    - every store operation is run to completion before the next one starts
      (the interleavings of the asynchronous calls are not modelled, except for
      the lock, which has its own step relation);
    - the caller's predicates are pure, total boolean functions. *)

From Stdlib Require Import ZArith List Bool Permutation Sorted OrderedTypeEx.
From stdpp Require Import gmap strings list fin_maps.
Import ListNotations.

Local Open Scope Z_scope.

(** ** JavaScript values and objects *)

Inductive JsVal : Type :=
  | JNull
  | JBool (b : bool)
  | JNum (z : Z)
  | JStr (s : string).

#[global] Instance JsVal_eq_dec : EqDecision JsVal.
Proof. solve_decision. Defined.

(** A plain object: property name to value.  A missing property reads as
    [undefined], which is [None] below. *)
Abbreviation Obj := (gmap string JsVal).

(** [{ ...a, ...b }]: the properties of [b] win. *)
Definition spread (a b : Obj) : Obj := b ∪ a.

(** [item.id === id] for a string [id]. *)
Definition id_is (id : string) (item : Obj) : bool :=
  bool_decide (item !! "id" = Some (JStr id)).

Module Js.

(** [Array.prototype.slice(start, end)], after the language definition:
    negative indices count from the end, everything is clamped to
    [0 .. length].  The number arguments stand for their integer parts. *)
Definition slice {A : Type} (start end_ : Z) (l : list A) : list A :=
  let len := Z.of_nat (length l) in
  let k := if start <? 0 then Z.max (len + start) 0 else Z.min start len in
  let final := if end_ <? 0 then Z.max (len + end_) 0 else Z.min end_ len in
  firstn (Z.to_nat (Z.max (final - k) 0)) (skipn (Z.to_nat k) l).

(** [Array.prototype.findIndex]; [None] stands for [-1]. *)
Fixpoint findIndex {A : Type} (f : A -> bool) (l : list A) : option nat :=
  match l with
  | [] => None
  | x :: l' => if f x then Some O else option_map S (findIndex f l')
  end.

(** [Array.prototype.some]. *)
Definition some {A : Type} (f : A -> bool) (l : list A) : bool := existsb f l.

(** [Array.prototype.sort(comparefn)].  The language requires a stable sort;
    for a consistent comparator its result is unique, and this insertion
    sort computes it.  (For an inconsistent comparator the language leaves
    the order to the implementation.) *)
Fixpoint sort_insert {A : Type} (cmp : A -> A -> Z) (x : A) (l : list A) : list A :=
  match l with
  | [] => [x]
  | y :: l' => if cmp x y <=? 0 then x :: y :: l' else y :: sort_insert cmp x l'
  end.

Fixpoint sort {A : Type} (cmp : A -> A -> Z) (l : list A) : list A :=
  match l with
  | [] => []
  | x :: l' => sort_insert cmp x (sort cmp l')
  end.

(** A comparator is consistent on the values that satisfy [P] when "may come
    before" is total and transitive there. *)
Definition consistent_on {A : Type} (P : A -> Prop) (cmp : A -> A -> Z) : Prop :=
  (forall a b, P a -> P b -> cmp a b <= 0 \/ cmp b a <= 0) /\
  (forall a b c, P a -> P b -> P c -> cmp a b <= 0 -> cmp b c <= 0 -> cmp a c <= 0).

Section Relational.

(** The runtime's conversion of a string to a number, restricted to
    integer results; [None] is [NaN]. *)
Variable StringToNumber : string -> option Z.

(** [ToNumber] on a property read; [None] is [NaN]. *)
Definition ToNumber (v : option JsVal) : option Z :=
  match v with
  | None => None
  | Some JNull => Some 0
  | Some (JBool b) => Some (if b then 1 else 0)
  | Some (JNum z) => Some z
  | Some (JStr s) => StringToNumber s
  end.

(** [a < b]: two strings compare by code units, anything else as
    numbers, and a comparison with [NaN] is false.  [String.ltb] compares
    bytes, which on UTF-8 text is the order of code points: the order of the
    language except between U+E000..U+FFFF and the characters beyond
    U+FFFF. *)
Definition lt (a b : option JsVal) : bool :=
  match a, b with
  | Some (JStr s), Some (JStr t) => String.ltb s t
  | _, _ =>
      match ToNumber a, ToNumber b with
      | Some x, Some y => x <? y
      | _, _ => false
      end
  end.

(** [a > b] is [b < a] on primitive values. *)
Definition gt (a b : option JsVal) : bool := lt b a.

End Relational.

End Js.

(** ** The write lock *)

Module WriteLock.

(** [queue] holds the suspended callers (in the source, the closures that
    resume them), oldest first. *)
Record t (W : Type) : Type := mk { locked : bool; queue : list W }.
Arguments mk {W} _ _.
Arguments locked {W} _.
Arguments queue {W} _.

Definition new {W : Type} : t W := mk false [].

(** [acquire()] on behalf of caller [k].  The boolean tells whether the
    returned promise is already resolved ([true]) or the caller has been
    queued ([false]). *)
Definition acquire {W : Type} (k : W) (this : t W) : bool * t W :=
  if negb (locked this) then (true, mk true (queue this))
  else (false, mk (locked this) (queue this ++ [k])).

(** [release()].  Running the shifted closure sets [locked] and resolves the
    promise of the caller it belongs to, which is returned. *)
Definition release {W : Type} (this : t W) : option W * t W :=
  match queue this with
  | next :: rest => (Some next, mk true rest)
  | [] => (None, mk false [])
  end.

End WriteLock.

(** *** The lock with its callers

    Ghost state on top of the lock: who has been let through and has not
    released yet, who was suspended (in arrival order) and who was resumed
    from the queue (in resumption order). *)

Module LockSystem.

Definition Caller := nat.

Record state : Type := mkState {
  lk : WriteLock.t Caller;
  holders : list Caller;
  arrived : list Caller;
  granted : list Caller
}.

Definition init : state := mkState WriteLock.new [] [] [].

Inductive Op : Type :=
  | Acquire (c : Caller)
  | Release (c : Caller).

Definition opt_list {A : Type} (o : option A) : list A :=
  match o with Some a => [a] | None => [] end.

Fixpoint remove1 (c : Caller) (l : list Caller) : list Caller :=
  match l with
  | [] => []
  | x :: l' => if Nat.eqb c x then l' else x :: remove1 c l'
  end.

(** One call on the lock.  [release] is called by a caller that went through
    [acquire] (as [writeFile] does); otherwise the step is not enabled. *)
Definition step (op : Op) (s : state) : option state :=
  match op with
  | Acquire c =>
      let '(now, lk') := WriteLock.acquire c (lk s) in
      if now then Some (mkState lk' (holders s ++ [c]) (arrived s) (granted s))
      else Some (mkState lk' (holders s) (arrived s ++ [c]) (granted s))
  | Release c =>
      if existsb (Nat.eqb c) (holders s) then
        let '(next, lk') := WriteLock.release (lk s) in
        Some (mkState lk' (remove1 c (holders s) ++ opt_list next)
                      (arrived s) (granted s ++ opt_list next))
      else None
  end.

Inductive reachable : state -> Prop :=
  | reach_init : reachable init
  | reach_step op s s' : reachable s -> step op s = Some s' -> reachable s'.

(** Running a schedule from a state; [None] when a step is not enabled. *)
Fixpoint run (ops : list Op) (s : state) : option state :=
  match ops with
  | [] => Some s
  | op :: ops' =>
      match step op s with
      | Some s' => run ops' s'
      | None => None
      end
  end.

(** What holds in every reachable state: a free lock has no holder and no
    waiter, a taken lock has exactly one holder, and the waiters resumed so
    far followed by those still queued are the suspended callers in the order
    of their arrival. *)
Definition inv (s : state) : Prop :=
  (WriteLock.locked (lk s) = false -> holders s = [] /\ WriteLock.queue (lk s) = []) /\
  (WriteLock.locked (lk s) = true -> exists c, holders s = [c]) /\
  granted s ++ WriteLock.queue (lk s) = arrived s.

(** Three callers arrive and the first one releases. *)
Definition schedule : list Op :=
  [Acquire 1%nat; Acquire 2%nat; Acquire 3%nat; Release 1%nat].

Definition after_schedule : state :=
  mkState (WriteLock.mk true [3%nat]) [2%nat] [2%nat; 3%nat] [2%nat].

End LockSystem.

(** ** The query builder *)

Inductive Order : Type := asc | desc.

Module QueryBuilder.

Record t : Type := mk { data : list Obj }.

(** [constructor(data) { this.data = [...data]; }] *)
Definition new (data : list Obj) : t := mk data.

Definition filter (predicate : Obj -> bool) (this : t) : t :=
  mk (List.filter predicate (data this)).

Definition limit (n : Z) (this : t) : t :=
  mk (Js.slice 0 n (data this)).

Section Sort.

Variable StringToNumber : string -> option Z.

(** The comparator handed to [Array.prototype.sort]. *)
Definition compareFn (key : string) (order : Order) (a b : Obj) : Z :=
  let valA := a !! key in
  let valB := b !! key in
  if Js.lt StringToNumber valA valB then
    match order with asc => -1 | desc => 1 end
  else if Js.gt StringToNumber valA valB then
    match order with asc => 1 | desc => -1 end
  else 0.

Definition sort (key : string) (order : Order) (this : t) : t :=
  mk (Js.sort (compareFn key order) (data this)).

End Sort.

Definition exec (this : t) : list Obj := data this.

End QueryBuilder.

(** *** The builder as an object

    The methods above pass the builder along as a value.  In the source the
    builder is one object that every method changes and returns, and its
    [data] field refers to an array that [sort] reorders in place while
    [filter] and [limit] replace it.  Here arrays and builders live in a
    heap and are named by references. *)

Module BuilderHeap.

Record Heap : Type := mkHeap {
  arrays : gmap nat (list Obj);   (* array reference to its elements *)
  objects : gmap nat nat          (* builder reference to its [data] field *)
}.

Inductive Call : Type :=
  | Filter (predicate : Obj -> bool)
  | Limit (n : Z)
  | Sort (key : string) (order : Order).

(** A new array holding [a]. *)
Definition alloc (a : list Obj) (h : Heap) : nat * Heap :=
  let r := fresh (dom (arrays h)) in
  (r, mkHeap (<[r := a]> (arrays h)) (objects h)).

(** The elements of the array that [this.data] refers to. *)
Definition working (this : nat) (h : Heap) : list Obj :=
  match objects h !! this with
  | Some r => default [] (arrays h !! r)
  | None => []
  end.

(** [this.data = <a new array holding a>] *)
Definition rebind (this : nat) (a : list Obj) (h : Heap) : Heap :=
  let '(r, h') := alloc a h in
  mkHeap (arrays h') (<[this := r]> (objects h')).

(** [new QueryBuilder(data)]: [this.data = [...data]]. *)
Definition new (data : nat) (h : Heap) : nat * Heap :=
  let this := fresh (dom (objects h)) in
  (this, rebind this (default [] (arrays h !! data)) h).

Section Methods.

Variable StringToNumber : string -> option Z.

(** One chained call; each returns [this]. *)
Definition call (c : Call) (this : nat) (h : Heap) : nat * Heap :=
  match c with
  | Filter predicate =>
      (this, rebind this (List.filter predicate (working this h)) h)
  | Limit n =>
      (this, rebind this (Js.slice 0 n (working this h)) h)
  | Sort key order =>
      (this,
       match objects h !! this with
       | Some r =>
           mkHeap (<[r := Js.sort (QueryBuilder.compareFn StringToNumber key order)
                             (default [] (arrays h !! r))]> (arrays h))
                  (objects h)
       | None => h
       end)
  end.

(** [exec()]: the reference held in [this.data]. *)
Definition exec (this : nat) (h : Heap) : option nat := objects h !! this.

(** A chain of calls, each made on what the one before returned. *)
Fixpoint chain (cs : list Call) (this : nat) (h : Heap) : nat * Heap :=
  match cs with
  | [] => (this, h)
  | c :: cs' => let '(this', h') := call c this h in chain cs' this' h'
  end.

(** The same chain on the builder passed along as a value. *)
Fixpoint chain_pure (cs : list Call) (q : QueryBuilder.t) : QueryBuilder.t :=
  match cs with
  | [] => q
  | Filter predicate :: cs' => chain_pure cs' (QueryBuilder.filter predicate q)
  | Limit n :: cs' => chain_pure cs' (QueryBuilder.limit n q)
  | Sort key order :: cs' =>
      chain_pure cs' (QueryBuilder.sort StringToNumber key order q)
  end.

End Methods.

(** The builder exists and its [data] refers to an array of the heap. *)
Definition valid (this : nat) (h : Heap) : Prop :=
  exists r a, objects h !! this = Some r /\ arrays h !! r = Some a.

End BuilderHeap.

(** ** The environment of the store: validator, file, effects *)

(** What [this.schema] offers: [parse] and [partial().parse].  [None] means
    the validator throws.  The result of a successful parse is an object. *)
Record ZodSchema (I : Type) : Type := mkSchema {
  parse : I -> option Obj;
  partial_parse : Obj -> option Obj
}.
Arguments mkSchema {I} _ _.
Arguments parse {I} _ _.
Arguments partial_parse {I} _ _.

Inductive Error : Type :=
  | FsError (code : string)   (* a file-system error; it carries [code] *)
  | SyntaxError               (* thrown by [JSON.parse] *)
  | ZodError.                 (* thrown by the validator *)

(** [err.code] *)
Definition err_code (e : Error) : option string :=
  match e with
  | FsError c => Some c
  | SyntaxError | ZodError => None
  end.

(** The text of the file, as far as the store can tell texts apart.  A text
    that is JSON but not an array of objects ([{}], [null], [[0]]) is in none
    of the three cases: [readFile] returns whatever was parsed, and a method
    that goes on to call an array method on it throws a [TypeError].  The
    laws about a collection that was read are laws about the three cases. *)
Inductive FileContent : Type :=
  | EmptyText                       (* the empty string *)
  | JsonArray (data : list Obj)     (* the JSON text of an array of objects *)
  | BadText.                        (* a text that [JSON.parse] rejects *)

(** What [fs.readFile] meets at the store's path: a failure with a code
    ([ENOENT] when there is no file) or a text. *)
Inductive FileState : Type :=
  | ReadFails (code : string)
  | Holds (c : FileContent).

Definition Absent : FileState := ReadFails "ENOENT".

Inductive IOEvent : Type :=
  | EvRead
  | EvWrite (data : list Obj).

(** A write that fails: the error's code and what it leaves behind.
    [fs.writeFile] opens the file for writing, which empties it, and then
    writes.  A failure to open ([EACCES], [EISDIR]) leaves the file as it
    was: [wleft] is [None].  A failure while writing ([ENOSPC], [EIO]) leaves
    the text written so far, the empty text or a broken one. *)
Record WriteFailure : Type := mkFailure {
  wcode : string;
  wleft : option FileContent
}.

(** The state the store's methods run in.  [wfail] is the failure that
    [fs.writeFile] meets, if any; [log] records every access to the file. *)
Record World : Type := mkWorld {
  file : FileState;
  wfail : option WriteFailure;
  lock : WriteLock.t (list Obj);
  log : list IOEvent
}.

Definition set_file (f : FileState) (w : World) : World :=
  mkWorld f (wfail w) (lock w) (log w).
Definition set_lock (l : WriteLock.t (list Obj)) (w : World) : World :=
  mkWorld (file w) (wfail w) l (log w).
Definition add_log (e : IOEvent) (w : World) : World :=
  mkWorld (file w) (wfail w) (lock w) (log w ++ [e]).

(** How a call ends: with a value, with an exception (a rejected promise),
    or suspended on the lock. *)
Inductive Outcome (A : Type) : Type :=
  | Ok (a : A)
  | Throw (e : Error)
  | Pending.
Arguments Ok {A} _.
Arguments Throw {A} _.
Arguments Pending {A}.

Definition M (A : Type) : Type := World -> Outcome A * World.

Definition ret {A : Type} (a : A) : M A := fun w => (Ok a, w).
Definition throw {A : Type} (e : Error) : M A := fun w => (Throw e, w).
Definition bind {A B : Type} (m : M A) (k : A -> M B) : M B :=
  fun w =>
    match m w with
    | (Ok a, w') => k a w'
    | (Throw e, w') => (Throw e, w')
    | (Pending, w') => (Pending, w')
    end.

Notation "'await' x := m 'in' k" := (bind m (fun x => k))
  (at level 10, x name, m at level 100, k at level 200, only parsing).
Notation "'await_' m 'in' k" := (bind m (fun _ => k))
  (at level 10, m at level 100, k at level 200, only parsing).

(** [fs.readFile(path, "utf-8")] *)
Definition fs_readFile : M FileContent :=
  fun w =>
    match file w with
    | ReadFails code => (Throw (FsError code), add_log EvRead w)
    | Holds c => (Ok c, add_log EvRead w)
    end.

(** The file after a failed write. *)
Definition after_failure (f : WriteFailure) (w : World) : World :=
  match wleft f with
  | Some c => set_file (Holds c) w
  | None => w
  end.

(** [fs.writeFile(path, JSON.stringify(data, null, 2), "utf-8")] *)
Definition fs_writeFile (data : list Obj) : M unit :=
  fun w =>
    match wfail w with
    | Some f => (Throw (FsError (wcode f)), add_log (EvWrite data) (after_failure f w))
    | None => (Ok tt, add_log (EvWrite data) (set_file (Holds (JsonArray data)) w))
    end.

(** [JSON.parse(content || "[]")] *)
Definition JSON_parse (content : FileContent) : M (list Obj) :=
  match content with
  | EmptyText => ret []
  | JsonArray data => ret data
  | BadText => throw SyntaxError
  end.

(** [try { m } catch (err) { handler err }] *)
Definition try_catch {A : Type} (m : M A) (handler : Error -> M A) : M A :=
  fun w =>
    match m w with
    | (Throw e, w') => handler e w'
    | r => r
    end.

(** ** The store *)

Module JsonFileStore.

Section Store.

Context {I : Type}.
Variable schema : ZodSchema I.

Definition readFile : M (list Obj) :=
  try_catch
    (await content := fs_readFile in JSON_parse content)
    (fun err =>
       if bool_decide (err_code err = Some "ENOENT") then ret [] else throw err).

(** [await this.lock.acquire(); try { write } finally { this.lock.release(); }]
    A caller that finds the lock taken stays queued with its data. *)
Definition writeFile (data : list Obj) : M unit :=
  fun w =>
    match WriteLock.acquire data (lock w) with
    | (false, l) => (Pending, set_lock l w)
    | (true, l) =>
        let '(r, w') := fs_writeFile data (set_lock l w) in
        (r, set_lock (snd (WriteLock.release (lock w'))) w')
    end.

Definition getAll : M (list Obj) := readFile.

Definition getById (id : string) : M (option Obj) :=
  await data := readFile in
  ret (List.find (id_is id) data).

(** [uuid] is what [crypto.randomUUID()] returns in this call. *)
Definition create (uuid : string) (input : I) : M Obj :=
  match parse schema input with
  | None => throw ZodError
  | Some parsed =>
      await data := readFile in
      let newItem := spread parsed {[ "id" := JStr uuid ]} in
      let data := data ++ [newItem] in
      await_ writeFile data in
      ret newItem
  end.

Definition update (id : string) (updates : Obj) : M (option Obj) :=
  await data := readFile in
  match Js.findIndex (id_is id) data with
  | None => ret None
  | Some index =>
      let item := nth index data ∅ in
      let updated := spread item updates in
      match partial_parse schema updated with
      | None => throw ZodError
      | Some parsed =>
          let data := <[index := spread item parsed]> data in
          await_ writeFile data in
          ret (Some (nth index data ∅))
      end
  end.

Definition delete (id : string) : M bool :=
  await data := readFile in
  let newData := List.filter (fun item => negb (id_is id item)) data in
  if Nat.eqb (length newData) (length data) then ret false
  else await_ writeFile newData in ret true.

Definition find (filterFn : Obj -> bool) : M (list Obj) :=
  await data := readFile in
  ret (List.filter filterFn data).

Definition first (filterFn : Obj -> bool) : M (option Obj) :=
  await data := readFile in
  ret (List.find filterFn data).

Definition count (filterFn : option (Obj -> bool)) : M nat :=
  await data := readFile in
  ret (match filterFn with
       | Some f => length (List.filter f data)
       | None => length data
       end).

Definition exists_ (id : string) : M bool :=
  await data := readFile in
  ret (Js.some (id_is id) data).

Definition query : M QueryBuilder.t :=
  await data := readFile in
  ret (QueryBuilder.new data).

End Store.

End JsonFileStore.

(** ** Two updates that overlap

    [update] awaits three times: the read, the lock and the write.  Cut at
    the second, it splits into what it does up to [await this.writeFile(data)]
    and what it does from there on; two calls in flight can then take turns. *)

Module Overlap.

Section Updates.

Context {I : Type}.
Variable schema : ZodSchema I.

(** [update] up to the write: the array it is about to write and the place
    of the record in it, or [None] when it is about to return [null]. *)
Definition prepare (id : string) (updates : Obj) : M (option (list Obj * nat)) :=
  await data := JsonFileStore.readFile in
  match Js.findIndex (id_is id) data with
  | None => ret None
  | Some index =>
      let item := nth index data ∅ in
      let updated := spread item updates in
      match partial_parse schema updated with
      | None => throw ZodError
      | Some parsed => ret (Some (<[index := spread item parsed]> data, index))
      end
  end.

(** [update] from the write on. *)
Definition commit (plan : option (list Obj * nat)) : M (option Obj) :=
  match plan with
  | None => ret None
  | Some (data, index) =>
      await_ JsonFileStore.writeFile data in
      ret (Some (nth index data ∅))
  end.

(** Call A and call B both read before either writes; A writes first. *)
Definition both_read_first (idA : string) (updatesA : Obj)
    (idB : string) (updatesB : Obj) : M (option Obj * option Obj) :=
  await planA := prepare idA updatesA in
  await planB := prepare idB updatesB in
  await resultA := commit planA in
  await resultB := commit planB in
  ret (resultA, resultB).

End Updates.

End Overlap.

(** ** The demo's schema

    [z.object({ title: z.string(), done: z.boolean().default(false),
                createdAt: z.string().default(() => new Date().toISOString()) })]
    Unknown keys are stripped.  [now] is what the clock returns when the
    default of [createdAt] is taken. *)

Module Todo.

Definition is_string (v : JsVal) : bool :=
  match v with JStr _ => true | _ => false end.

Definition is_boolean (v : JsVal) : bool :=
  match v with JBool _ => true | _ => false end.

(** One field of the object schema: the property must have the given type;
    when it is missing, the default is taken if there is one. *)
Definition field (key : string) (type : JsVal -> bool) (default : option JsVal)
    (input : Obj) : option JsVal :=
  match input !! key with
  | Some v => if type v then Some v else None
  | None => default
  end.

Definition parse (now : string) (input : Obj) : option Obj :=
  match field "title" is_string None input,
        field "done" is_boolean (Some (JBool false)) input,
        field "createdAt" is_string (Some (JStr now)) input with
  | Some title, Some done, Some createdAt =>
      Some (<["title" := title]> (<["done" := done]> (<["createdAt" := createdAt]> ∅)))
  | _, _, _ => None
  end.

(** One field of the partial schema on JSON data: a missing property stays
    missing, as under version 3 of the library; [TodoRt] below has both
    versions, on values of the program. *)
Definition partial_field (key : string) (type : JsVal -> bool)
    (input : Obj) (acc : option Obj) : option Obj :=
  match acc with
  | None => None
  | Some out =>
      match input !! key with
      | Some v => if type v then Some (<[key := v]> out) else None
      | None => Some out
      end
  end.

Definition partial_parse (input : Obj) : option Obj :=
  partial_field "title" is_string input
    (partial_field "done" is_boolean input
       (partial_field "createdAt" is_string input (Some ∅))).

Definition TodoSchema (now : string) : ZodSchema Obj :=
  mkSchema (parse now) partial_parse.

(** The fields of the schema. *)
Definition keys : list string := ["title"; "done"; "createdAt"].

(** A stored to-do as the schema wants it, with its identifier. *)
Definition well_formed (r : Obj) : Prop :=
  (exists s, r !! "title" = Some (JStr s)) /\
  (exists b, r !! "done" = Some (JBool b)) /\
  (exists s, r !! "createdAt" = Some (JStr s)) /\
  (exists s, r !! "id" = Some (JStr s)).

(** A world with no file yet, a free lock and a working disk. *)
Definition fresh : World := mkWorld Absent None WriteLock.new [].

Definition todo (title : string) (done : bool) : Obj :=
  <["title" := JStr title]> (<["done" := JBool done]> ∅).

Definition not_done (t : Obj) : bool :=
  bool_decide (t !! "done" = Some (JBool false)).

Definition is_done (t : Obj) : bool :=
  bool_decide (t !! "done" = Some (JBool true)).

(** The three [create] calls of the demo, at three instants. *)
Definition demo : M unit :=
  await_ JsonFileStore.create (TodoSchema "2024-01-01T00:00:00.000Z") "id-a" (todo "Task A" false) in
  await_ JsonFileStore.create (TodoSchema "2024-01-01T00:00:01.000Z") "id-b" (todo "Task B" true) in
  await_ JsonFileStore.create (TodoSchema "2024-01-01T00:00:02.000Z") "id-c" (todo "Task C" false) in
  ret tt.

(** The collection the demo leaves in the file. *)
Definition three : list Obj :=
  match fst ((await_ demo in JsonFileStore.getAll) fresh) with
  | Ok data => data
  | _ => []
  end.

Definition after_demo : World := snd (demo fresh).

(** [StringToNumber] on strings that are not numeric literals, as are all
    the titles, identifiers and dates above: the result is [NaN]. *)
Definition not_numeric : string -> option Z := fun _ => None.

(** An input that the schema rejects: the title is not a string. *)
Definition bad_input : Obj := <["title" := JNum 42]> ∅.

(** The second record of the demo, as stored. *)
Definition task_b : Obj := nth 1 three ∅.

Definition titles (l : list Obj) : list (option JsVal) :=
  map (fun r : Obj => r !! "title") l.

Definition out_titles (o : Outcome (list Obj)) : option (list (option JsVal)) :=
  match o with
  | Ok l => Some (titles l)
  | _ => None
  end.

(** [ToBoolean] on a property read: [undefined], [null], [false], [0] and the
    empty string are falsy. *)
Definition ToBoolean (v : option JsVal) : bool :=
  match v with
  | None | Some JNull => false
  | Some (JBool b) => b
  | Some (JNum z) => negb (z =? 0)
  | Some (JStr s) => negb (String.eqb s "")
  end.

(** [(todo) => !todo.done] and [(todo) => todo.done] *)
Definition active (todo : Obj) : bool := negb (ToBoolean (todo !! "done")).
Definition finished (todo : Obj) : bool := ToBoolean (todo !! "done").

(** What [demo()] hands to [console.log]. *)
Record Printed : Type := mkPrinted {
  activeTodos : list Obj;
  firstDone : option Obj;
  limitedSorted : list Obj
}.

(** The whole of [demo()].  Each [create] comes with the identifier it draws
    and the time at which it runs. *)
Definition run_demo (StringToNumber : string -> option Z)
    (id1 now1 id2 now2 id3 now3 : string) : M Printed :=
  await_ JsonFileStore.create (TodoSchema now1) id1 (todo "Task A" false) in
  await_ JsonFileStore.create (TodoSchema now2) id2 (todo "Task B" true) in
  await_ JsonFileStore.create (TodoSchema now3) id3 (todo "Task C" false) in
  await activeTodos := JsonFileStore.find active in
  await firstDone := JsonFileStore.first finished in
  await q := JsonFileStore.query in
  let limitedSorted :=
    QueryBuilder.exec
      (QueryBuilder.limit 2
         (QueryBuilder.sort StringToNumber "createdAt" desc
            (QueryBuilder.filter active q))) in
  ret (mkPrinted activeTodos firstDone limitedSorted).

(** A to-do as [create] stores it. *)
Definition stored_todo (title : string) (done : bool) (createdAt id : string) : Obj :=
  <["id" := JStr id]>
    (<["title" := JStr title]> (<["done" := JBool done]>
       (<["createdAt" := JStr createdAt]> ∅))).

(** The schema at a later time, a disk that is full, a lock that is taken. *)
Definition later : ZodSchema Obj := TodoSchema "2024-01-01T00:00:03.000Z".

Definition disk_full : World :=
  mkWorld (file after_demo) (Some (mkFailure "ENOSPC" (Some EmptyText)))
    WriteLock.new [].

Definition busy : World :=
  mkWorld (file after_demo) None (WriteLock.mk true []) [].

(** Two updates of task A, and what each returns. *)
Definition rename : Obj := <["title" := JStr "Task A, renamed"]> ∅.
Definition tick : Obj := <["done" := JBool true]> ∅.

Definition renamed_a : Obj :=
  stored_todo "Task A, renamed" false "2024-01-01T00:00:00.000Z" "id-a".
Definition ticked_a : Obj :=
  stored_todo "Task A" true "2024-01-01T00:00:00.000Z" "id-a".

(** A heap that holds the demo's collection as array 0, and a builder on it. *)
Definition heap0 : BuilderHeap.Heap :=
  BuilderHeap.mkHeap {[ 0%nat := three ]} ∅.

Definition heap1 : BuilderHeap.Heap := snd (BuilderHeap.new 0 heap0).
Definition builder1 : nat := fst (BuilderHeap.new 0 heap0).

End Todo.

(** ** Values at run time

    The file holds JSON data, and so do the records read from it.  What a
    validator returns and what a caller passes as updates are values of the
    running program, which need not be JSON data: a property may be set to
    [undefined], hold a [Date] or a number that is not finite.
    [JSON.stringify] leaves the first out, writes the second as a string and
    the third as [null], so that what is read back differs from what was
    written.  The methods below are [create], [update] and [getById] on such
    values; on JSON data they are the methods of [JsonFileStore]. *)

Inductive RtVal : Type :=
  | RJson (v : JsVal)         (* JSON data *)
  | RUndefined                (* [undefined] *)
  | RDate (iso : string)      (* a valid [Date]; [iso] is its [toISOString()] *)
  | RNonFinite.               (* [NaN], [Infinity], [-Infinity] *)

#[global] Instance RtVal_eq_dec : EqDecision RtVal.
Proof. solve_decision. Defined.

Abbreviation RtObj := (gmap string RtVal).

Module Runtime.

(** What [JSON.stringify] writes for a property; [None]: it leaves the
    property out. *)
Definition to_json_val (v : RtVal) : option JsVal :=
  match v with
  | RJson j => Some j
  | RUndefined => None
  | RDate iso => Some (JStr iso)
  | RNonFinite => Some JNull
  end.

(** [JSON.parse(JSON.stringify(o))] for a record [o]. *)
Definition to_json (o : RtObj) : Obj := omap to_json_val o.

(** A record read from the file, as a value of the program. *)
Definition of_json (o : Obj) : RtObj := RJson <$> o.

(** Every property holds JSON data. *)
Definition json_data (o : RtObj) : Prop :=
  forall k v, o !! k = Some v -> exists j, v = RJson j.

(** [{ ...a, ...b }] *)
Definition spread (a b : RtObj) : RtObj := b ∪ a.

(** [item.id === id] *)
Definition id_is (id : string) (item : RtObj) : bool :=
  bool_decide (item !! "id" = Some (RJson (JStr id))).

(** [this.schema]: [parse] and [partial().parse]; [None]: it throws. *)
Record Schema (I : Type) : Type := mkSchema {
  parse : I -> option RtObj;
  partial_parse : RtObj -> option RtObj
}.
Arguments mkSchema {I} _ _.
Arguments parse {I} _ _.
Arguments partial_parse {I} _ _.

Definition readFile : M (list RtObj) :=
  await data := JsonFileStore.readFile in
  ret (map of_json data).

(** The text that [writeFile] writes is [JSON.stringify(data, null, 2)]. *)
Definition writeFile (data : list RtObj) : M unit :=
  JsonFileStore.writeFile (map to_json data).

Definition getById (id : string) : M (option RtObj) :=
  await data := readFile in
  ret (List.find (id_is id) data).

Section Store.

Context {I : Type}.
Variable schema : Schema I.

Definition create (uuid : string) (input : I) : M RtObj :=
  match parse schema input with
  | None => throw ZodError
  | Some parsed =>
      await data := readFile in
      let newItem := spread parsed {[ "id" := RJson (JStr uuid) ]} in
      let data := data ++ [newItem] in
      await_ writeFile data in
      ret newItem
  end.

Definition update (id : string) (updates : RtObj) : M (option RtObj) :=
  await data := readFile in
  match Js.findIndex (id_is id) data with
  | None => ret None
  | Some index =>
      let item := nth index data ∅ in
      let updated := spread item updates in
      match partial_parse schema updated with
      | None => throw ZodError
      | Some parsed =>
          let data := <[index := spread item parsed]> data in
          await_ writeFile data in
          ret (Some (nth index data ∅))
      end
  end.

End Store.

End Runtime.

(** The validator [S] over values of the program is the validator [s] over
    JSON data: it returns what [s] returns, on every input of [parse] (seen
    through [inj]) and on every JSON object in partial form. *)
Definition agrees {I J : Type} (inj : J -> I) (S : Runtime.Schema I)
    (s : ZodSchema J) : Prop :=
  (forall input, Runtime.parse S (inj input) = Runtime.of_json <$> parse s input) /\
  (forall x, Runtime.partial_parse S (Runtime.of_json x) =
             Runtime.of_json <$> partial_parse s x).

(** *** The demo's schema on values of the program

    The library that validates is not part of the repository and two major
    versions of it are in use.  They differ in the partial form: where a field
    with a default is missing or [undefined], version 3 leaves it so and
    version 4 takes the default. *)

Inductive ZodVersion : Type := zod3 | zod4.

Module TodoRt.

(** One field of the object schema: a property that is missing or
    [undefined] takes the default if there is one. *)
Definition field (key : string) (type : JsVal -> bool) (default : option JsVal)
    (input : RtObj) : option JsVal :=
  match input !! key with
  | Some (RJson v) => if type v then Some v else None
  | Some RUndefined | None => default
  | Some _ => None
  end.

Definition parse (now : string) (input : RtObj) : option RtObj :=
  match field "title" Todo.is_string None input,
        field "done" Todo.is_boolean (Some (JBool false)) input,
        field "createdAt" Todo.is_string (Some (JStr now)) input with
  | Some title, Some done, Some createdAt =>
      Some (<["title" := RJson title]> (<["done" := RJson done]>
              (<["createdAt" := RJson createdAt]> ∅)))
  | _, _, _ => None
  end.

(** What the partial schema makes of a field that is missing or
    [undefined]: the default under version 4 if there is one, else nothing
    for a missing field and [undefined] for one that is set to it. *)
Definition absent (v : ZodVersion) (default : option JsVal) (set : bool) :
    option RtVal :=
  match v, default with
  | zod4, Some d => Some (RJson d)
  | _, _ => if set then Some RUndefined else None
  end.

Definition put (key : string) (o : option RtVal) (out : RtObj) : RtObj :=
  match o with
  | Some x => <[key := x]> out
  | None => out
  end.

Definition partial_field (v : ZodVersion) (key : string) (type : JsVal -> bool)
    (default : option JsVal) (input : RtObj) (acc : option RtObj) : option RtObj :=
  match acc with
  | None => None
  | Some out =>
      match input !! key with
      | Some (RJson x) => if type x then Some (<[key := RJson x]> out) else None
      | Some RUndefined => Some (put key (absent v default true) out)
      | None => Some (put key (absent v default false) out)
      | Some _ => None
      end
  end.

Definition partial_parse (v : ZodVersion) (now : string) (input : RtObj) :
    option RtObj :=
  partial_field v "title" Todo.is_string None input
    (partial_field v "done" Todo.is_boolean (Some (JBool false)) input
       (partial_field v "createdAt" Todo.is_string (Some (JStr now)) input (Some ∅))).

Definition schema (v : ZodVersion) (now : string) : Runtime.Schema RtObj :=
  Runtime.mkSchema (parse now) (partial_parse v now).

(** The default of a field, if it has one. *)
Definition default_of (now : string) (key : string) : option JsVal :=
  if String.eqb key "done" then Some (JBool false)
  else if String.eqb key "createdAt" then Some (JStr now)
  else None.

(** The partial schema lets the property pass: it is missing, [undefined],
    or JSON data of the field's type. *)
Definition passes (type : JsVal -> bool) (x : option RtVal) : Prop :=
  match x with
  | None | Some RUndefined => True
  | Some (RJson j) => type j = true
  | Some _ => False
  end.

(** The updates set none of the three fields to [undefined]. *)
Definition sets_no_undefined (updates : RtObj) : Prop :=
  Forall (fun k => updates !! k <> Some RUndefined) Todo.keys.

(** Updates that hold a property set to [undefined]. *)
Definition untitle : RtObj := <["title" := RUndefined]> ∅.

(** Updates that hold JSON data. *)
Definition tick : RtObj := <["done" := RJson (JBool true)]> ∅.

Definition later (v : ZodVersion) : Runtime.Schema RtObj :=
  schema v "2024-01-01T00:00:03.000Z".

(** Task A of the demo as stored, and as [update] returns it for
    [untitle]. *)
Definition task_a : Obj :=
  Todo.stored_todo "Task A" false "2024-01-01T00:00:00.000Z" "id-a".

Definition untitled_a : RtObj := <["title" := RUndefined]> (Runtime.of_json task_a).

(** A stored record with a title and nothing else, as a file written by
    another program may hold it. *)
Definition bare : Obj := <["id" := JStr "id-x"]> (<["title" := JStr "x"]> ∅).

Definition bare_world : World :=
  mkWorld (Holds (JsonArray [bare])) None WriteLock.new [].

End TodoRt.

(** *** A schema with a date

    [z.object({ title: z.string(), due: z.date() })]: a validator whose
    result is not JSON data. *)

Module Event.

Definition is_string (v : RtVal) : bool :=
  match v with RJson (JStr _) => true | _ => false end.

Definition is_date (v : RtVal) : bool :=
  match v with RDate _ => true | _ => false end.

Definition parse (input : RtObj) : option RtObj :=
  match input !! "title", input !! "due" with
  | Some title, Some due =>
      if is_string title && is_date due
      then Some (<["title" := title]> (<["due" := due]> ∅))
      else None
  | _, _ => None
  end.

(** One field of the partial schema: missing or [undefined] passes as it is. *)
Definition partial_field (key : string) (type : RtVal -> bool)
    (input : RtObj) (acc : option RtObj) : option RtObj :=
  match acc with
  | None => None
  | Some out =>
      match input !! key with
      | None => Some out
      | Some RUndefined => Some (<[key := RUndefined]> out)
      | Some v => if type v then Some (<[key := v]> out) else None
      end
  end.

Definition partial_parse (input : RtObj) : option RtObj :=
  partial_field "title" is_string input
    (partial_field "due" is_date input (Some ∅)).

Definition schema : Runtime.Schema RtObj := Runtime.mkSchema parse partial_parse.

Definition input : RtObj :=
  <["title" := RJson (JStr "Launch")]>
    (<["due" := RDate "2024-06-01T00:00:00.000Z"]> ∅).



(** A world with no file yet, a free lock and a working disk. *)
Definition fresh : World := mkWorld Absent None WriteLock.new [].

End Event.

(** *** A schema that transforms

    [z.object({ title: z.string().transform((s) => s + "!") })]: a validator
    that accepts a record it has produced and does not hand it back as it
    is. *)

Module Shout.

Definition shout (v : JsVal) : option JsVal :=
  match v with
  | JStr s => Some (JStr (s +:+ "!"))
  | _ => None
  end.

Definition parse (input : Obj) : option Obj :=
  match input !! "title" with
  | Some v =>
      match shout v with
      | Some v' => Some (<["title" := v']> ∅)
      | None => None
      end
  | None => None
  end.

Definition partial_parse (input : Obj) : option Obj :=
  match input !! "title" with
  | Some v =>
      match shout v with
      | Some v' => Some (<["title" := v']> ∅)
      | None => None
      end
  | None => Some ∅
  end.

Definition schema : ZodSchema Obj := mkSchema parse partial_parse.



End Shout.

(** ** The two sides of the pipeline law *)

Module Pipeline.

Section WithRuntime.

Variable StringToNumber : string -> option Z.

(** Source side: [(await store.query()).filter(p).sort(k, "desc").limit(n).exec()] *)
Definition chained (p : Obj -> bool) (k : string) (n : Z) : M (list Obj) :=
  await q := JsonFileStore.query in
  ret (QueryBuilder.exec
         (QueryBuilder.limit n
            (QueryBuilder.sort StringToNumber k desc
               (QueryBuilder.filter p q)))).

(** Specification side, in the words of the law: sort by key [k], descending
    (with the builder's comparison of two field values) ... *)
Definition sorted_by_key_desc (k : string) (l : list Obj) : list Obj :=
  Js.sort (QueryBuilder.compareFn StringToNumber k desc) l.

(** ... and take the first [n] (nothing when [n] is not positive). *)
Definition first_n (n : Z) (l : list Obj) : list Obj := firstn (Z.to_nat n) l.

Definition composed (p : Obj -> bool) (k : string) (n : Z) : M (list Obj) :=
  await found := JsonFileStore.find p in
  ret (first_n n (sorted_by_key_desc k found)).

End WithRuntime.

End Pipeline.

(** ** Specification-side notions *)

(** [Kept p l l']: [l'] is [l] with exactly the records for which [p] holds,
    in the order of [l]. *)
Inductive Kept (p : Obj -> bool) : list Obj -> list Obj -> Prop :=
  | Kept_nil : Kept p [] []
  | Kept_yes x l l' : p x = true -> Kept p l l' -> Kept p (x :: l) (x :: l')
  | Kept_no x l l' : p x = false -> Kept p l l' -> Kept p (x :: l) l'.

(** A record satisfies the schema when the validator, in the partial form
    that [update] uses, accepts it and hands its fields back as they are. *)
Definition satisfies {I : Type} (schema : ZodSchema I) (r : Obj) : Prop :=
  exists parsed, partial_parse schema r = Some parsed /\ parsed ⊆ r.


(** A world in which a write goes through at once: nobody holds or awaits
    the lock, and the disk accepts writes. *)
Definition idle (w : World) : Prop :=
  lock w = WriteLock.new /\ wfail w = None.

(** The record has a string under the key. *)
Definition has_string (k : string) (r : Obj) : Prop :=
  exists s, r !! k = Some (JStr s).

(** [a] does not come before [b] in the order of strings: [a >= b]. *)
Definition string_ge (k : string) (a b : Obj) : Prop :=
  forall s t, a !! k = Some (JStr s) -> b !! k = Some (JStr t) -> String.ltb s t = false.

(** The record reads [v] under the key ([None]: the key is missing). *)
Definition has_value (k : string) (v : option JsVal) (r : Obj) : bool :=
  bool_decide (r !! k = v).

(** [a] is not above [b] in the order of strings: [a <= b]. *)
Definition string_le (k : string) (a b : Obj) : Prop :=
  forall s t, a !! k = Some (JStr s) -> b !! k = Some (JStr t) -> String.ltb t s = false.

(** Neighbours as the given order wants them. *)
Definition in_order (k : string) (order : Order) : Obj -> Obj -> Prop :=
  match order with
  | asc => string_le k
  | desc => string_ge k
  end.

(** The result of a call seen through a function of its value. *)
Definition outcome_map {A B : Type} (f : A -> B) (o : Outcome A) : Outcome B :=
  match o with
  | Ok a => Ok (f a)
  | Throw e => Throw e
  | Pending => Pending
  end.

(** No two records of the collection read the same under [id]. *)
Definition unique_ids (data : list Obj) : Prop :=
  NoDup (map (fun r : Obj => r !! "id") data).

(** The validator's partial form never hands back an [id] property (an
    object schema without an [id] field strips it). *)
Definition strips_id {I : Type} (schema : ZodSchema I) : Prop :=
  forall x parsed, partial_parse schema x = Some parsed -> parsed !! "id" = None.

(** What a read of the file yields, as a function of the file alone. *)
Definition stored (f : FileState) : Outcome (list Obj) :=
  match f with
  | ReadFails code =>
      if bool_decide (Some code = Some "ENOENT") then Ok [] else Throw (FsError code)
  | Holds EmptyText => Ok []
  | Holds (JsonArray data) => Ok data
  | Holds BadText => Throw SyntaxError
  end.

(** * Laws *)

(** ** Arrays *)

Section Arrays.

Context {A : Type}.

Lemma slice_from_0 (n : Z) (l : list A) :
  Js.slice 0 n l =
  firstn (Z.to_nat (if n <? 0 then Z.of_nat (length l) + n else n)) l.
Proof.
  unfold Js.slice. cbv zeta.
  replace (0 <? 0) with false by reflexivity.
  replace (Z.min 0 (Z.of_nat (length l))) with 0 by lia.
  change (skipn (Z.to_nat 0) l) with l. rewrite Z.sub_0_r.
  destruct (n <? 0) eqn:E.
  - apply Z.ltb_lt in E. f_equal. lia.
  - apply Z.ltb_ge in E.
    destruct (Z.le_ge_cases n (Z.of_nat (length l))) as [H|H].
    + f_equal. lia.
    + replace (Z.max (Z.min n (Z.of_nat (length l))) 0)
        with (Z.of_nat (length l)) by lia.
      rewrite Nat2Z.id, firstn_all. symmetry. apply firstn_all2. lia.
Qed.

Lemma slice_from_0_nonneg (n : Z) (l : list A) :
  0 <= n -> Js.slice 0 n l = firstn (Z.to_nat n) l.
Proof.
  intros Hn. rewrite slice_from_0.
  destruct (n <? 0) eqn:E; [apply Z.ltb_lt in E; lia | reflexivity].
Qed.

Lemma slice_from_0_neg (n : Z) (l : list A) :
  n < 0 -> Js.slice 0 n l = firstn (length l - Z.to_nat (- n)) l.
Proof.
  intros Hn. rewrite slice_from_0.
  destruct (n <? 0) eqn:E; [f_equal; lia | apply Z.ltb_ge in E; lia].
Qed.

Lemma findIndex_find (f : A -> bool) (d : A) (l : list A) (x : A) :
  List.find f l = Some x ->
  exists i, Js.findIndex f l = Some i /\ nth i l d = x /\ l !! i = Some x.
Proof.
  induction l as [|y l IH]; simpl; [discriminate|].
  destruct (f y) eqn:E.
  - intros [= <-]. exists O. auto.
  - intros H. destruct (IH H) as (i & Hi & Hn & Hl).
    exists (S i). rewrite Hi. auto.
Qed.

Lemma findIndex_none (f : A -> bool) (l : list A) :
  Js.some f l = false -> Js.findIndex f l = None.
Proof.
  unfold Js.some. induction l as [|y l IH]; simpl; [reflexivity|].
  destruct (f y); simpl; [discriminate|].
  intros H. rewrite (IH H). reflexivity.
Qed.

Lemma find_none_of_some (f : A -> bool) (l : list A) :
  Js.some f l = false -> List.find f l = None.
Proof.
  unfold Js.some. induction l as [|y l IH]; simpl; [reflexivity|].
  destruct (f y); simpl; [discriminate | exact IH].
Qed.

Lemma filter_negb_same_length (f : A -> bool) (l : list A) :
  length (List.filter (fun x => negb (f x)) l) = length l <-> Js.some f l = false.
Proof.
  unfold Js.some. induction l as [|y l IH]; simpl; [tauto|].
  pose proof (List.filter_length_le (fun x => negb (f x)) l) as Hle.
  destruct (f y); simpl.
  - split; [lia | discriminate].
  - rewrite <- IH. lia.
Qed.

Lemma filter_negb_id (f : A -> bool) (l : list A) :
  Js.some f l = false -> List.filter (fun x => negb (f x)) l = l.
Proof.
  unfold Js.some. induction l as [|y l IH]; simpl; [reflexivity|].
  destruct (f y); simpl; [discriminate|].
  intros H. rewrite (IH H). reflexivity.
Qed.

Lemma find_filter_negb (f : A -> bool) (l : list A) :
  List.find f (List.filter (fun x => negb (f x)) l) = None.
Proof.
  induction l as [|y l IH]; simpl; [reflexivity|].
  destruct (f y) eqn:E; simpl; [exact IH|].
  rewrite E. exact IH.
Qed.

End Arrays.

(** ** Sorting *)

Section SortLaws.

Context {A : Type} (cmp : A -> A -> Z).

Lemma sort_insert_perm (x : A) (l : list A) :
  Permutation (Js.sort_insert cmp x l) (x :: l).
Proof.
  induction l as [|y l IH]; simpl; [reflexivity|].
  destruct (cmp x y <=? 0); [reflexivity|].
  rewrite IH. apply perm_swap.
Qed.

(** The sort rearranges, it neither loses nor invents records. *)
Lemma sort_perm (l : list A) : Permutation (Js.sort cmp l) l.
Proof.
  induction l as [|x l IH]; simpl; [reflexivity|].
  rewrite sort_insert_perm. by constructor.
Qed.

Variable P : A -> Prop.
Hypothesis Hcons : Js.consistent_on P cmp.

Lemma sort_insert_sorted (x : A) (l : list A) :
  P x -> Forall P l ->
  StronglySorted (fun a b => cmp a b <= 0) l ->
  StronglySorted (fun a b => cmp a b <= 0) (Js.sort_insert cmp x l).
Proof.
  destruct Hcons as [Htot Htrans].
  intros Hx HP Hs. induction Hs as [|y l Hs IH Hy]; simpl.
  - repeat constructor.
  - apply Forall_cons in HP as [HPy HPl].
    destruct (cmp x y <=? 0) eqn:E.
    + apply Z.leb_le in E. constructor; [by constructor|].
      constructor; [exact E|].
      rewrite Forall_forall in *. intros z Hz.
      apply (Htrans x y z); auto.
    + apply Z.leb_gt in E. constructor; [auto|].
      rewrite (sort_insert_perm x l). constructor; [|exact Hy].
      destruct (Htot x y Hx HPy); [lia | assumption].
Qed.

(** On a consistent comparator the result is in order. *)
Lemma sort_sorted (l : list A) :
  Forall P l -> StronglySorted (fun a b => cmp a b <= 0) (Js.sort cmp l).
Proof.
  induction l as [|x l IH]; simpl; intros HP; [constructor|].
  apply Forall_cons in HP as [Hx HPl].
  apply sort_insert_sorted; auto.
  rewrite (sort_perm l). exact HPl.
Qed.

End SortLaws.

Lemma ltb_lt (s t : string) : String.ltb s t = true <-> String_as_OT.lt s t.
Proof.
  rewrite <- String_as_OT.cmp_lt. unfold String.ltb, String_as_OT.cmp.
  destruct (String.compare s t); split; congruence.
Qed.

Lemma ltb_false_total (s t : string) :
  String.ltb s t = false \/ String.ltb t s = false.
Proof.
  unfold String.ltb. rewrite (String.compare_antisym t s).
  destruct (String.compare s t); simpl; auto.
Qed.

Lemma ltb_false_trans (a b c : string) :
  String.ltb a b = false -> String.ltb b c = false -> String.ltb a c = false.
Proof.
  intros Hab Hbc. destruct (String.ltb a c) eqn:Hac; [|reflexivity].
  apply ltb_lt in Hac.
  assert (Hcb : c = b \/ String_as_OT.lt c b).
  { unfold String.ltb in Hbc. destruct (String.compare b c) eqn:E; try discriminate.
    - left. symmetry. by apply String.compare_eq_iff.
    - right. apply String_as_OT.cmp_lt. unfold String_as_OT.cmp.
      rewrite String.compare_antisym, E. reflexivity. }
  assert (Hlt : String_as_OT.lt a b).
  { destruct Hcb as [<- | Hcb]; [exact Hac|].
    eapply String_as_OT.lt_trans; eauto. }
  apply ltb_lt in Hlt. congruence.
Qed.

(** On string fields the descending comparator says "may come before"
    exactly when the first string is not below the second. *)
Lemma compareFn_desc_strings (StringToNumber : string -> option Z) (k : string)
    (a b : Obj) (s t : string) :
  a !! k = Some (JStr s) -> b !! k = Some (JStr t) ->
  (QueryBuilder.compareFn StringToNumber k desc a b <= 0 <-> String.ltb s t = false).
Proof.
  intros Ha Hb. unfold QueryBuilder.compareFn, Js.gt, Js.lt. rewrite Ha, Hb.
  destruct (String.ltb s t) eqn:E1.
  - split; [lia | discriminate].
  - destruct (String.ltb t s); split; auto; lia.
Qed.

Lemma compareFn_desc_consistent (StringToNumber : string -> option Z) (k : string) :
  Js.consistent_on (has_string k) (QueryBuilder.compareFn StringToNumber k desc).
Proof.
  split.
  - intros a b [s Ha] [t Hb].
    rewrite (compareFn_desc_strings StringToNumber k a b s t Ha Hb),
            (compareFn_desc_strings StringToNumber k b a t s Hb Ha).
    apply ltb_false_total.
  - intros a b c [s Ha] [t Hb] [u Hc].
    rewrite (compareFn_desc_strings StringToNumber k a b s t Ha Hb),
            (compareFn_desc_strings StringToNumber k b c t u Hb Hc),
            (compareFn_desc_strings StringToNumber k a c s u Ha Hc).
    apply ltb_false_trans.
Qed.

(** When every record has a string under [k], [sort(k, "desc")] returns the
    same records with the strings under [k] going down. *)
Lemma sort_desc_strings (StringToNumber : string -> option Z) (k : string) (q : QueryBuilder.t) :
  Forall (has_string k) (QueryBuilder.exec q) ->
  Permutation (QueryBuilder.exec (QueryBuilder.sort StringToNumber k desc q)) (QueryBuilder.exec q) /\
  StronglySorted (string_ge k) (QueryBuilder.exec (QueryBuilder.sort StringToNumber k desc q)).
Proof.
  intros HP. unfold QueryBuilder.exec, QueryBuilder.sort in *. simpl.
  split; [apply sort_perm|].
  pose proof (sort_sorted _ _ (compareFn_desc_consistent StringToNumber k) _ HP) as Hs.
  induction Hs as [|a l Hs IH Ha]; constructor; [exact IH|].
  eapply Forall_impl; [exact Ha|].
  intros b Hab s t Has Hbt.
  by apply (compareFn_desc_strings StringToNumber k a b s t Has Hbt).
Qed.

(** ** Reading and writing the file *)

Lemma readFile_stored (w : World) :
  JsonFileStore.readFile w = (stored (file w), add_log EvRead w).
Proof.
  unfold JsonFileStore.readFile, try_catch, bind, fs_readFile, stored.
  destruct (file w) as [code | [ | data | ]]; simpl; try reflexivity.
  destruct (bool_decide (Some code = Some "ENOENT")); reflexivity.
Qed.

(** A write that returns has replaced the content; one that stays pending
    has left the file alone. *)
Lemma writeFile_file (data : list Obj) (w : World) :
  match JsonFileStore.writeFile data w with
  | (Ok _, w') => file w' = Holds (JsonArray data)
  | (Throw _, w') => True
  | (Pending, w') => file w' = file w
  end.
Proof.
  unfold JsonFileStore.writeFile, WriteLock.acquire, fs_writeFile.
  destruct (negb (WriteLock.locked (lock w))); simpl; [|reflexivity].
  destruct (wfail w); [exact I | reflexivity].
Qed.

(** Every method that only reads is [readFile] followed by a pure step. *)
Lemma read_then (A : Type) (f : list Obj -> A) (w : World) :
  (await data := JsonFileStore.readFile in ret (f data)) w =
  (match stored (file w) with
   | Ok data => Ok (f data)
   | Throw e => Throw e
   | Pending => Pending
   end, add_log EvRead w).
Proof.
  unfold bind. rewrite readFile_stored.
  destruct (stored (file w)); reflexivity.
Qed.

Ltac read_only :=
  unfold JsonFileStore.getAll, JsonFileStore.getById, JsonFileStore.find,
    JsonFileStore.first, JsonFileStore.count, JsonFileStore.exists_,
    JsonFileStore.query;
  rewrite ?read_then, ?readFile_stored.

(** ** C7: the read policy *)



(** ** C8: [find] and [count] *)

Lemma filter_Kept (p : Obj -> bool) (l : list Obj) : Kept p l (List.filter p l).
Proof.
  induction l as [|x l IH]; simpl; [constructor|].
  destruct (p x) eqn:E; [apply Kept_yes | apply Kept_no]; assumption.
Qed.

Lemma Kept_unique (p : Obj -> bool) (l l1 l2 : list Obj) :
  Kept p l l1 -> Kept p l l2 -> l1 = l2.
Proof.
  intros H1. revert l2.
  induction H1 as [|x l l1 Hx _ IH|x l l1 Hx _ IH]; intros l2 H2;
    inversion H2; subst; try congruence.
  - f_equal. auto.
  - auto.
Qed.

Lemma Kept_sublist (p : Obj -> bool) (l l' : list Obj) :
  Kept p l l' -> sublist l' l.
Proof.
  induction 1; [constructor | by apply sublist_skip | by apply sublist_cons].
Qed.

Lemma Kept_elem (p : Obj -> bool) (l l' : list Obj) :
  Kept p l l' -> forall x, x ∈ l' <-> x ∈ l /\ p x = true.
Proof.
  induction 1 as [|y l l' Hy _ IH|y l l' Hy _ IH]; intros x.
  - split; [intros H; inversion H | intros [H _]; inversion H].
  - rewrite !elem_of_cons, IH. split.
    + intros [-> | [? ?]]; auto.
    + intros [[-> | ?] ?]; auto.
  - rewrite elem_of_cons, IH. split.
    + intros [? ?]; auto.
    + intros [[-> | ?] ?]; [congruence | auto].
Qed.

(** C8.  Whenever the collection can be read, [find(p)] returns the records
    of [getAll()] for which [p] holds and only those, each as often as it is
    stored and in the stored order ([Kept], which determines the result); and [count()] without a predicate is the
    length of [getAll()]. *)
Theorem find_count_spec (w : World) (p : Obj -> bool) (data : list Obj) :
  fst (JsonFileStore.getAll w) = Ok data ->
  (exists found,
     fst (JsonFileStore.find p w) = Ok found /\
     Kept p data found /\
     (forall l, Kept p data l -> l = found) /\
     sublist found data /\
     (forall x, x ∈ found <-> x ∈ data /\ p x = true)) /\
  fst (JsonFileStore.count None w) = Ok (length data).
Proof.
  read_only. simpl. intros Hs. rewrite Hs. split; [|reflexivity].
  exists (List.filter p data).
  pose proof (filter_Kept p data) as HK.
  split; [reflexivity|]. split; [exact HK|].
  split; [intros l Hl; exact (Kept_unique p data l _ Hl HK)|].
  split; [eapply Kept_sublist | eapply Kept_elem]; exact HK.
Qed.

(** ** C10: validation comes first *)

(** C10.  When the schema rejects the input, [create] throws the validation
    error and the world is exactly as before: nothing was read, nothing was
    written, the lock was not touched. *)
Theorem create_invalid_no_io {I : Type} (schema : ZodSchema I)
    (uuid : string) (input : I) (w : World) :
  parse schema input = None ->
  JsonFileStore.create schema uuid input w = (Throw ZodError, w).
Proof.
  intros H. unfold JsonFileStore.create. rewrite H. reflexivity.
Qed.

(** ** C5: [update] of an unknown id *)

(** C5.  When the collection can be read and holds no record with the given
    id, [update] returns [null] (it does not throw), and all it did was one
    read: the file is as before and nothing was written. *)
Theorem update_missing {I : Type} (schema : ZodSchema I)
    (id : string) (updates : Obj) (w : World) :
  fst (JsonFileStore.exists_ id w) = Ok false ->
  JsonFileStore.update schema id updates w = (Ok None, add_log EvRead w) /\
  file (snd (JsonFileStore.update schema id updates w)) = file w.
Proof.
  read_only. simpl. intros H.
  assert (Hu : JsonFileStore.update schema id updates w = (Ok None, add_log EvRead w)).
  { unfold JsonFileStore.update, bind. rewrite readFile_stored.
    destruct (stored (file w)) as [data | e | ]; try discriminate.
    injection H as H. rewrite (findIndex_none _ _ H). reflexivity. }
  rewrite Hu. split; reflexivity.
Qed.

(** ** Writing in an idle world *)

Lemma writeFile_idle (data : list Obj) (w : World) :
  idle w ->
  JsonFileStore.writeFile data w =
  (Ok tt, add_log (EvWrite data) (set_file (Holds (JsonArray data)) w)).
Proof.
  intros [Hl Hw]. unfold JsonFileStore.writeFile, fs_writeFile.
  destruct w as [f wf l lg]. simpl in *. subst. reflexivity.
Qed.

Lemma idle_add_log (e : IOEvent) (w : World) : idle w -> idle (add_log e w).
Proof. intros H. exact H. Qed.

(** ** C3: [delete] *)

Lemma delete_cases (id : string) (w : World) (b : bool) (w' : World) :
  JsonFileStore.delete id w = (Ok b, w') ->
  exists data, stored (file w) = Ok data /\
    ((b = false /\ Js.some (id_is id) data = false /\ file w' = file w) \/
     (b = true /\
      file w' = Holds (JsonArray (List.filter (fun item => negb (id_is id item)) data)))).
Proof.
  unfold JsonFileStore.delete, bind. rewrite readFile_stored.
  destruct (stored (file w)) as [data | e | ]; try discriminate.
  intros H. exists data. split; [reflexivity|].
  destruct (Nat.eqb _ _) eqn:E.
  - apply Nat.eqb_eq in E. apply filter_negb_same_length in E.
    injection H as <- <-. left. auto.
  - pose proof (writeFile_file
        (List.filter (fun item => negb (id_is id item)) data) (add_log EvRead w)) as HW.
    destruct (JsonFileStore.writeFile _ _) as [[[] | e | ] w1]; try discriminate.
    injection H as <- <-. right. auto.
Qed.

(** C3.  In an idle world whose file can be read, [delete(id)] returns; and
    whenever [delete(id)] returns, a following [getById(id)] returns [null].
    When the collection can be read and holds no record with that id,
    [delete(id)] returns [false] after one read and no write, so that the
    file, with its records and their order, is what it was. *)
Theorem delete_spec (id : string) (w : World) :
  (idle w -> (exists data, fst (JsonFileStore.getAll w) = Ok data) ->
     exists b w', JsonFileStore.delete id w = (Ok b, w')) /\
  (forall b w', JsonFileStore.delete id w = (Ok b, w') ->
     fst (JsonFileStore.getById id w') = Ok None) /\
  (fst (JsonFileStore.exists_ id w) = Ok false ->
     JsonFileStore.delete id w = (Ok false, add_log EvRead w) /\
     file (snd (JsonFileStore.delete id w)) = file w /\
     fst (JsonFileStore.getAll (snd (JsonFileStore.delete id w))) =
       fst (JsonFileStore.getAll w)).
Proof.
  split; [|split].
  - intros Hidle [data Hd]. revert Hd. read_only. simpl. intros Hs.
    unfold JsonFileStore.delete, bind. rewrite readFile_stored, Hs.
    destruct (Nat.eqb _ _); [eauto|].
    rewrite (writeFile_idle _ _ (idle_add_log EvRead w Hidle)). eauto.
  - intros b w' H. destruct (delete_cases _ _ _ _ H) as (data & Hs & Hc).
    read_only. simpl.
    destruct Hc as [(_ & Hn & Hf) | (_ & Hf)]; rewrite Hf.
    + rewrite Hs. rewrite (find_none_of_some _ _ Hn). reflexivity.
    + simpl. rewrite find_filter_negb. reflexivity.
  - read_only. simpl. intros H.
    assert (Hd : JsonFileStore.delete id w = (Ok false, add_log EvRead w)).
    { unfold JsonFileStore.delete, bind. rewrite readFile_stored.
      destruct (stored (file w)) as [data | e | ]; try discriminate.
      injection H as H. rewrite (filter_negb_id _ _ H), Nat.eqb_refl. reflexivity. }
    rewrite Hd. simpl. auto.
Qed.

(** ** C2: [create] then [getById] *)


Lemma spread_id (parsed : Obj) (uuid : string) :
  spread parsed {[ "id" := JStr uuid ]} = <["id" := JStr uuid]> parsed.
Proof. unfold spread. symmetry. apply insert_union_singleton_l. Qed.

(** *** Values of the program and their JSON image *)

Lemma to_json_of_json (o : Obj) : Runtime.to_json (Runtime.of_json o) = o.
Proof.
  apply map_eq. intros k. unfold Runtime.to_json, Runtime.of_json.
  rewrite lookup_omap, lookup_fmap. destruct (o !! k); reflexivity.
Qed.

Lemma of_json_to_json (o : RtObj) :
  Runtime.json_data o -> Runtime.of_json (Runtime.to_json o) = o.
Proof.
  intros H. apply map_eq. intros k. unfold Runtime.to_json, Runtime.of_json.
  rewrite lookup_fmap, lookup_omap. destruct (o !! k) as [v|] eqn:E; [|reflexivity].
  destruct (H k v E) as [j ->]. reflexivity.
Qed.

Lemma json_data_of_json (o : Obj) : Runtime.json_data (Runtime.of_json o).
Proof.
  intros k v. unfold Runtime.of_json. rewrite lookup_fmap.
  destruct (o !! k); simpl; [intros [= <-]; eauto | discriminate].
Qed.

(** A record survives [JSON.parse(JSON.stringify(...))] exactly when it holds
    JSON data only. *)
Lemma round_trip_iff_json_data (o : RtObj) :
  Runtime.of_json (Runtime.to_json o) = o <-> Runtime.json_data o.
Proof.
  split; [|apply of_json_to_json].
  intros H k v Hk. rewrite <- H in Hk.
  exact (json_data_of_json _ k v Hk).
Qed.

Lemma map_to_json_of_json (data : list Obj) :
  map Runtime.to_json (map Runtime.of_json data) = data.
Proof.
  induction data as [|x data IH]; simpl; [reflexivity|].
  rewrite to_json_of_json, IH. reflexivity.
Qed.

Lemma id_is_of_json (id : string) (x : Obj) :
  Runtime.id_is id (Runtime.of_json x) = id_is id x.
Proof.
  unfold Runtime.id_is, id_is, Runtime.of_json. rewrite lookup_fmap.
  apply bool_decide_ext. destruct (x !! "id"); simpl; split; congruence.
Qed.


Lemma findIndex_of_json (id : string) (data : list Obj) :
  Js.findIndex (Runtime.id_is id) (map Runtime.of_json data) =
  Js.findIndex (id_is id) data.
Proof.
  induction data as [|x data IH]; simpl; [reflexivity|].
  rewrite id_is_of_json, IH. reflexivity.
Qed.

Lemma rt_readFile_stored (w : World) :
  Runtime.readFile w =
  (outcome_map (map Runtime.of_json) (stored (file w)), add_log EvRead w).
Proof.
  unfold Runtime.readFile. rewrite read_then.
  destruct (stored (file w)); reflexivity.
Qed.


Lemma rt_spread_id (parsed : RtObj) (uuid : string) :
  Runtime.spread parsed {[ "id" := RJson (JStr uuid) ]} =
  <["id" := RJson (JStr uuid)]> parsed.
Proof. unfold Runtime.spread. symmetry. apply insert_union_singleton_l. Qed.

(** What [create] does once the validator has accepted and the file has been
    read: it writes the old records followed by the JSON image of the new
    one. *)
Lemma rt_create_unfold {I : Type} (schema : Runtime.Schema I)
    (uuid : string) (input : I) (parsed : RtObj) (w : World) (data : list Obj) :
  Runtime.parse schema input = Some parsed ->
  stored (file w) = Ok data ->
  Runtime.create schema uuid input w =
  (await_ JsonFileStore.writeFile
            (data ++ [Runtime.to_json (<["id" := RJson (JStr uuid)]> parsed)]) in
   ret (<["id" := RJson (JStr uuid)]> parsed)) (add_log EvRead w).
Proof.
  intros Hp Hs. unfold Runtime.create. rewrite Hp. unfold bind at 1.
  rewrite rt_readFile_stored, Hs. simpl. rewrite rt_spread_id.
  unfold Runtime.writeFile. rewrite map_app, map_to_json_of_json. reflexivity.
Qed.



(** ** C4: the empty update *)








(** ** C9: [limit] *)

(** C9, amended.  For every working sequence and every [n >= 0], [limit(n)]
    leaves the prefix of length [min(n, length)] of the working sequence, so
    at most [n] records. *)
Theorem limit_prefix (n : Z) (q : QueryBuilder.t) :
  0 <= n ->
  QueryBuilder.exec (QueryBuilder.limit n q) =
    firstn (Z.to_nat (Z.min n (Z.of_nat (length (QueryBuilder.exec q)))))
           (QueryBuilder.exec q) /\
  Z.of_nat (length (QueryBuilder.exec (QueryBuilder.limit n q))) =
    Z.min n (Z.of_nat (length (QueryBuilder.exec q))).
Proof.
  intros Hn. unfold QueryBuilder.exec, QueryBuilder.limit. simpl.
  rewrite (slice_from_0_nonneg n _ Hn).
  set (l := QueryBuilder.data q).
  destruct (Z.le_ge_cases n (Z.of_nat (length l))) as [H|H].
  - rewrite Z.min_l by lia. split; [reflexivity|].
    rewrite length_firstn. lia.
  - rewrite Z.min_r by lia. rewrite Nat2Z.id, firstn_all.
    split; [apply firstn_all2; lia|].
    rewrite length_firstn. lia.
Qed.

Lemma limit_prefix_witness :
  QueryBuilder.exec (QueryBuilder.limit 2 (QueryBuilder.new Todo.three)) =
  firstn 2 Todo.three.
Proof.
  exact (proj1 (limit_prefix 2 (QueryBuilder.new Todo.three) ltac:(lia))).
Defined.

(** The claim as stated, at [n = -1] on three records: [slice(0, -1)] drops
    the last record and keeps two, where the prefix of length [min(-1, 3)]
    has none. *)
Lemma limit_negative_counterexample :
  QueryBuilder.exec (QueryBuilder.limit (-1) (QueryBuilder.new Todo.three)) <>
  firstn (Z.to_nat (Z.min (-1) (Z.of_nat
            (length (QueryBuilder.exec (QueryBuilder.new Todo.three))))))
         (QueryBuilder.exec (QueryBuilder.new Todo.three)).
Proof.
  intros H. apply (f_equal (@length Obj)) in H.
  vm_compute in H. discriminate H.
Qed.

(** What [limit] does below zero: it drops the last [-n] records. *)
Lemma limit_negative (n : Z) (q : QueryBuilder.t) :
  n < 0 ->
  QueryBuilder.exec (QueryBuilder.limit n q) =
  firstn (length (QueryBuilder.exec q) - Z.to_nat (- n)) (QueryBuilder.exec q).
Proof.
  intros Hn. unfold QueryBuilder.exec, QueryBuilder.limit. simpl.
  apply slice_from_0_neg. exact Hn.
Qed.

(** ** C1: the pipeline law *)

(** C1, amended.  For every state of the file, every predicate [p], every
    key [k] and every [n >= 0], the chained call
    [query().filter(p).sort(k, "desc").limit(n).exec()] ends as [find(p)]
    followed by the descending sort by [k] and by taking the first [n]: with
    the same sequence, or with the same error when the file cannot be read. *)
Theorem pipeline_law (StringToNumber : string -> option Z)
    (p : Obj -> bool) (k : string) (n : Z) (w : World) :
  0 <= n ->
  Pipeline.chained StringToNumber p k n w = Pipeline.composed StringToNumber p k n w.
Proof.
  intros Hn. unfold Pipeline.chained, Pipeline.composed.
  read_only. unfold bind. rewrite !readFile_stored.
  destruct (stored (file w)) as [data | e | ]; try reflexivity.
  unfold ret, QueryBuilder.exec, QueryBuilder.limit, QueryBuilder.sort,
    QueryBuilder.filter, QueryBuilder.new, Pipeline.first_n,
    Pipeline.sorted_by_key_desc. simpl.
  rewrite (slice_from_0_nonneg n _ Hn). reflexivity.
Qed.

Lemma pipeline_law_witness :
  Pipeline.chained Todo.not_numeric Todo.not_done "createdAt" 1 Todo.after_demo =
  Pipeline.composed Todo.not_numeric Todo.not_done "createdAt" 1 Todo.after_demo.
Proof.
  apply (pipeline_law Todo.not_numeric Todo.not_done "createdAt" 1 Todo.after_demo).
  lia.
Defined.

(** The claim as stated, at [n = -1] on the demo's three records: the chain
    returns two records, taking the first [-1] of the sorted matches none. *)
Lemma pipeline_negative_counterexample :
  fst (Pipeline.chained Todo.not_numeric (fun _ => true) "createdAt" (-1)
         Todo.after_demo) <>
  fst (Pipeline.composed Todo.not_numeric (fun _ => true) "createdAt" (-1)
         Todo.after_demo).
Proof.
  intros H.
  apply (f_equal (fun o => match o with Ok l => Some (length l) | _ => None end)) in H.
  vm_compute in H. discriminate H.
Qed.

(** ** C6: the lock is fair *)

Section LockLaws.

Import LockSystem.

Lemma inv_init : inv init.
Proof. repeat split; simpl; try discriminate; reflexivity. Qed.

Lemma remove1_single (c : Caller) : remove1 c [c] = [].
Proof. simpl. rewrite Nat.eqb_refl. reflexivity. Qed.

Lemma existsb_single (c x : Caller) : existsb (Nat.eqb c) [x] = true -> x = c.
Proof.
  simpl. rewrite orb_false_r. intros H. apply Nat.eqb_eq in H. auto.
Qed.

Lemma inv_acquire (c : Caller) (s s' : state) :
  inv s -> step (Acquire c) s = Some s' -> inv s'.
Proof.
  intros (Hfree & Hheld & Hfifo). destruct s as [[lkd q] hs arr gr].
  unfold step, WriteLock.acquire. simpl in *.
  destruct lkd; simpl; intros [= <-]; unfold inv; simpl.
  - split; [discriminate|]. split; [intros _; apply Hheld; reflexivity|].
    rewrite app_assoc, Hfifo. reflexivity.
  - destruct (Hfree eq_refl) as [-> ->].
    split; [discriminate|]. split; [intros _; exists c; reflexivity | exact Hfifo].
Qed.

Lemma inv_release (c : Caller) (s s' : state) :
  inv s -> step (Release c) s = Some s' -> inv s'.
Proof.
  intros (Hfree & Hheld & Hfifo). destruct s as [[lkd q] hs arr gr].
  unfold step, WriteLock.release. simpl in *.
  destruct (existsb (Nat.eqb c) hs) eqn:E; [|discriminate].
  destruct lkd.
  - destruct (Hheld eq_refl) as [x ->].
    apply existsb_single in E. subst x. rewrite remove1_single.
    destruct q as [|next rest]; intros [= <-]; unfold inv; simpl.
    + split; [intros _; split; reflexivity|]. split; [discriminate|].
      rewrite !app_nil_r in *. exact Hfifo.
    + split; [discriminate|]. split; [intros _; exists next; reflexivity|].
      rewrite <- app_assoc. exact Hfifo.
  - destruct (Hfree eq_refl) as [-> _]. discriminate.
Qed.

Lemma reachable_inv (s : state) : reachable s -> inv s.
Proof.
  induction 1 as [|op s s' _ IH Hstep]; [apply inv_init|].
  destruct op; [eapply inv_acquire | eapply inv_release]; eauto.
Qed.

Lemma run_reachable (ops : list Op) (s s' : state) :
  reachable s -> run ops s = Some s' -> reachable s'.
Proof.
  revert s. induction ops as [|op ops IH]; simpl; intros s Hr.
  - intros [= <-]. exact Hr.
  - destruct (step op s) as [s1|] eqn:E; [|discriminate].
    apply IH. eapply reach_step; eauto.
Qed.

(** C6.  In every state that the lock and its callers can reach:
    - at most one caller holds the lock, and the lock is marked taken
      exactly when somebody holds it;
    - while a caller holds it, [acquire()] suspends: the new caller goes to
      the back of the queue and the holder stays;
    - the waiters resumed so far, followed by those still queued, are the
      suspended callers in the order in which they arrived, so that the lock
      goes to the waiters first come, first served;
    - [release()] by the holder hands the lock to the oldest waiter when
      there is one, and marks the lock free otherwise. *)
Theorem lock_fifo_fair (s : state) :
  reachable s ->
  (length (holders s) <= 1)%nat /\
  (WriteLock.locked (lk s) = true <-> holders s <> []) /\
  (forall c, holders s <> [] ->
     step (Acquire c) s =
     Some (mkState (WriteLock.mk true (WriteLock.queue (lk s) ++ [c]))
                   (holders s) (arrived s ++ [c]) (granted s))) /\
  granted s ++ WriteLock.queue (lk s) = arrived s /\
  (forall c, c ∈ holders s ->
     step (Release c) s =
     Some (match WriteLock.queue (lk s) with
           | next :: rest =>
               mkState (WriteLock.mk true rest) [next] (arrived s) (granted s ++ [next])
           | [] =>
               mkState (WriteLock.mk false []) [] (arrived s) (granted s)
           end)).
Proof.
  intros Hr. destruct (reachable_inv s Hr) as (Hfree & Hheld & Hfifo).
  destruct s as [[lkd q] hs arr gr]. simpl in *.
  assert (Hlk : lkd = true <-> hs <> []).
  { destruct lkd.
    - destruct (Hheld eq_refl) as [x ->]. split; [discriminate | reflexivity].
    - destruct (Hfree eq_refl) as [-> _]. split; [discriminate | congruence]. }
  split.
  { destruct lkd.
    - destruct (Hheld eq_refl) as [x ->]. simpl. lia.
    - destruct (Hfree eq_refl) as [-> _]. simpl. lia. }
  split; [exact Hlk|].
  split.
  { intros c Hne. apply Hlk in Hne. subst lkd. reflexivity. }
  split; [exact Hfifo|].
  intros c Hc.
  assert (Hne : hs <> []) by (intros ->; inversion Hc).
  apply Hlk in Hne. subst lkd.
  destruct (Hheld eq_refl) as [x ->].
  apply list_elem_of_singleton in Hc. subst x.
  unfold step. simpl. rewrite Nat.eqb_refl. simpl.
  unfold WriteLock.release. simpl.
  destruct q as [|next rest]; simpl.
  - rewrite app_nil_r. reflexivity.
  - reflexivity.
Qed.

(** After the schedule the second caller has the lock and the third one is
    still queued. *)
Lemma lock_fifo_fair_witness :
  reachable after_schedule /\
  (length (holders after_schedule) <= 1)%nat /\
  granted after_schedule ++ WriteLock.queue (lk after_schedule) =
    arrived after_schedule.
Proof.
  assert (Hr : reachable after_schedule).
  { apply (run_reachable schedule init); [apply reach_init | reflexivity]. }
  split; [exact Hr|].
  pose proof (lock_fifo_fair after_schedule Hr) as (H1 & _ & _ & H4 & _).
  split; [exact H1 | exact H4].
Defined.

End LockLaws.

(** ** The demo's schema and store *)

Lemma partial_field_sub (key : string) (type : JsVal -> bool)
    (input : Obj) (acc : option Obj) (out : Obj) :
  Todo.partial_field key type input acc = Some out ->
  exists out0, acc = Some out0 /\ (out0 ⊆ input -> out ⊆ input).
Proof.
  unfold Todo.partial_field. destruct acc as [out0|]; [|discriminate].
  destruct (input !! key) as [v|] eqn:E.
  - destruct (type v); [|discriminate]. intros [= <-].
    exists out0. split; [reflexivity|]. intros Hsub.
    by apply insert_subseteq_l.
  - intros [= <-]. eauto.
Qed.

(** The partial form of the demo's schema only ever hands back fields of
    its input. *)
Lemma todo_partial_parse_sub (r parsed : Obj) :
  Todo.partial_parse r = Some parsed -> parsed ⊆ r.
Proof.
  unfold Todo.partial_parse. intros H.
  apply partial_field_sub in H as (o1 & H & S1).
  apply partial_field_sub in H as (o2 & H & S2).
  apply partial_field_sub in H as (o3 & [= <-] & S3).
  apply S1, S2, S3, map_empty_subseteq.
Qed.

Lemma todo_satisfies (now : string) (r : Obj) :
  is_Some (Todo.partial_parse r) -> satisfies (Todo.TodoSchema now) r.
Proof.
  intros [parsed H]. exists parsed. split; [exact H|].
  by apply todo_partial_parse_sub.
Qed.

(** The scenario of the specification. *)
Example scenario_find :
  Todo.out_titles (fst (JsonFileStore.find Todo.not_done Todo.after_demo)) =
  Some [Some (JStr "Task A"); Some (JStr "Task C")].
Proof. vm_compute. reflexivity. Qed.

Example scenario_first :
  fst (JsonFileStore.first Todo.is_done Todo.after_demo) = Ok (Some Todo.task_b).
Proof. vm_compute. reflexivity. Qed.

Example scenario_query :
  Todo.out_titles
    (fst (Pipeline.chained Todo.not_numeric Todo.not_done "createdAt" 1 Todo.after_demo)) =
  Some [Some (JStr "Task C")].
Proof. vm_compute. reflexivity. Qed.

Example scenario_log :
  length (log Todo.after_demo) = 6%nat /\ idle Todo.after_demo.
Proof. vm_compute. auto. Qed.

Lemma find_count_spec_witness :
  fst (JsonFileStore.count None Todo.after_demo) = Ok (length Todo.three).
Proof.
  apply (find_count_spec Todo.after_demo Todo.not_done Todo.three).
  vm_compute. reflexivity.
Defined.

Lemma create_invalid_no_io_witness :
  JsonFileStore.create (Todo.TodoSchema "2024-01-01T00:00:03.000Z") "id-d"
    Todo.bad_input Todo.after_demo = (Throw ZodError, Todo.after_demo).
Proof.
  apply (create_invalid_no_io (Todo.TodoSchema "2024-01-01T00:00:03.000Z") "id-d"
           Todo.bad_input Todo.after_demo).
  vm_compute. reflexivity.
Defined.

Lemma update_missing_witness :
  JsonFileStore.update (Todo.TodoSchema "2024-01-01T00:00:03.000Z") "id-z"
    (Todo.todo "Task Z" true) Todo.after_demo =
  (Ok None, add_log EvRead Todo.after_demo).
Proof.
  apply (update_missing (Todo.TodoSchema "2024-01-01T00:00:03.000Z") "id-z"
           (Todo.todo "Task Z" true) Todo.after_demo).
  vm_compute. reflexivity.
Defined.

Lemma delete_spec_witness :
  fst (JsonFileStore.getById "id-b" (snd (JsonFileStore.delete "id-b" Todo.after_demo))) =
    Ok None /\
  JsonFileStore.delete "id-z" Todo.after_demo = (Ok false, add_log EvRead Todo.after_demo).
Proof.
  split.
  - apply (proj1 (proj2 (delete_spec "id-b" Todo.after_demo)) true).
    vm_compute. reflexivity.
  - apply (proj2 (proj2 (delete_spec "id-z" Todo.after_demo))).
    vm_compute. reflexivity.
Defined.



(** * Further laws of the query builder *)

Section ComparatorLaws.

Variable StringToNumber : string -> option Z.

Lemma compare_refl (s : string) : String.compare s s = Eq.
Proof.
  pose proof (String.compare_antisym s s) as H.
  destruct (String.compare s s); [reflexivity | discriminate | discriminate].
Qed.

Lemma ltb_irrefl (s : string) : String.ltb s s = false.
Proof. unfold String.ltb. rewrite compare_refl. reflexivity. Qed.

Lemma ltb_asym (s t : string) : String.ltb s t = true -> String.ltb t s = false.
Proof.
  unfold String.ltb. rewrite (String.compare_antisym t s).
  destruct (String.compare s t); simpl; congruence.
Qed.

Lemma js_lt_irrefl (v : option JsVal) : Js.lt StringToNumber v v = false.
Proof.
  unfold Js.lt. destruct v as [[ | b | z | s]|]; simpl;
    try apply Z.ltb_irrefl; try apply ltb_irrefl; try reflexivity.
Qed.

Lemma js_lt_asym (a b : option JsVal) :
  Js.lt StringToNumber a b = true -> Js.lt StringToNumber b a = false.
Proof.
  unfold Js.lt.
  destruct a as [[ | x | x | s]|], b as [[ | y | y | t]|]; simpl;
    try discriminate; try reflexivity; try apply ltb_asym;
    try (destruct (StringToNumber _); try discriminate; try reflexivity);
    try (intros H; apply Z.ltb_lt in H; apply Z.ltb_ge; lia).
Qed.

Lemma compareFn_same_value (k : string) (order : Order) (a b : Obj) :
  a !! k = b !! k -> QueryBuilder.compareFn StringToNumber k order a b = 0.
Proof.
  intros H. unfold QueryBuilder.compareFn, Js.gt. rewrite H.
  rewrite js_lt_irrefl. reflexivity.
Qed.

(** X1.  The comparator of [sort] answers -1, 0 or 1; swapping its arguments
    negates the answer, and so does swapping ["asc"] and ["desc"]. *)
Theorem compareFn_antisymmetric (k : string) (order : Order) (a b : Obj) :
  (QueryBuilder.compareFn StringToNumber k order a b = -1 \/
   QueryBuilder.compareFn StringToNumber k order a b = 0 \/
   QueryBuilder.compareFn StringToNumber k order a b = 1) /\
  QueryBuilder.compareFn StringToNumber k order b a =
    - QueryBuilder.compareFn StringToNumber k order a b /\
  QueryBuilder.compareFn StringToNumber k desc a b =
    - QueryBuilder.compareFn StringToNumber k asc a b.
Proof.
  unfold QueryBuilder.compareFn, Js.gt.
  pose proof (js_lt_asym (a !! k) (b !! k)) as H1.
  pose proof (js_lt_asym (b !! k) (a !! k)) as H2.
  destruct (Js.lt StringToNumber (a !! k) (b !! k)),
           (Js.lt StringToNumber (b !! k) (a !! k));
    try (specialize (H1 eq_refl); discriminate);
    destruct order; simpl; repeat split; auto.
Qed.

End ComparatorLaws.

Section StableSort.

Context {A : Type} (cmp : A -> A -> Z) (f : A -> bool).
Hypothesis Hclass : forall a b, f a = true -> f b = true -> cmp a b <= 0.

Lemma sort_insert_filter (x : A) (l : list A) :
  List.filter f (Js.sort_insert cmp x l) = List.filter f (x :: l).
Proof.
  induction l as [|y l IH]; [reflexivity|].
  cbn [Js.sort_insert]. destruct (cmp x y <=? 0) eqn:E; [reflexivity|].
  apply Z.leb_gt in E. cbn [List.filter] in *. rewrite IH.
  destruct (f x) eqn:Hx, (f y) eqn:Hy; try reflexivity.
  specialize (Hclass x y Hx Hy). lia.
Qed.

Lemma sort_filter (l : list A) :
  List.filter f (Js.sort cmp l) = List.filter f l.
Proof.
  induction l as [|x l IH]; [reflexivity|].
  cbn [Js.sort]. rewrite sort_insert_filter. cbn [List.filter].
  rewrite IH. reflexivity.
Qed.

End StableSort.

Lemma sort_fixes_sorted {A : Type} (cmp : A -> A -> Z) (l : list A) :
  StronglySorted (fun a b => cmp a b <= 0) l -> Js.sort cmp l = l.
Proof.
  induction 1 as [|x l Hs IH Hx]; [reflexivity|].
  cbn [Js.sort]. rewrite IH. destruct l as [|y l]; [reflexivity|].
  cbn [Js.sort_insert]. apply Forall_cons in Hx as [Hxy _].
  apply Z.leb_le in Hxy. rewrite Hxy. reflexivity.
Qed.

Section BuilderLaws.

Variable StringToNumber : string -> option Z.

(** X2.  On string keys [sort] is stable.  When every record of the working
    sequence has a string under the key (so that the comparator is
    consistent and the language fixes the result), the records that have the
    same string under the key come out, for either order, in the order in
    which they went in. *)
Theorem sort_stable (k : string) (order : Order) (v : option JsVal)
    (q : QueryBuilder.t) :
  Forall (has_string k) (QueryBuilder.exec q) ->
  List.filter (has_value k v)
    (QueryBuilder.exec (QueryBuilder.sort StringToNumber k order q)) =
  List.filter (has_value k v) (QueryBuilder.exec q).
Proof.
  (* The hypothesis is what makes [Js.sort] the sort of the language; the
     insertion sort itself is stable on every input. *)
  intros _. unfold QueryBuilder.exec, QueryBuilder.sort. simpl.
  apply sort_filter. intros a b Ha Hb.
  unfold has_value in *. apply bool_decide_eq_true in Ha, Hb.
  rewrite (compareFn_same_value StringToNumber k order a b); [lia | congruence].
Qed.

(** X3.  [sort] only rearranges: for every key and either order the result
    holds the same records as often as the working sequence did, and is as
    long. *)
Theorem sort_rearranges (k : string) (order : Order) (q : QueryBuilder.t) :
  Permutation (QueryBuilder.exec (QueryBuilder.sort StringToNumber k order q))
              (QueryBuilder.exec q) /\
  length (QueryBuilder.exec (QueryBuilder.sort StringToNumber k order q)) =
    length (QueryBuilder.exec q).
Proof.
  unfold QueryBuilder.exec, QueryBuilder.sort. simpl.
  pose proof (sort_perm (QueryBuilder.compareFn StringToNumber k order)
                (QueryBuilder.data q)) as H.
  split; [exact H | apply Permutation_length, H].
Qed.

Lemma compareFn_strings (k : string) (order : Order) (a b : Obj) (s t : string) :
  a !! k = Some (JStr s) -> b !! k = Some (JStr t) ->
  (QueryBuilder.compareFn StringToNumber k order a b <= 0 <->
   match order with
   | asc => String.ltb t s = false
   | desc => String.ltb s t = false
   end).
Proof.
  intros Ha Hb. unfold QueryBuilder.compareFn, Js.gt, Js.lt. rewrite Ha, Hb.
  pose proof (ltb_asym s t) as H1.
  destruct (String.ltb s t) eqn:E1, (String.ltb t s) eqn:E2, order;
    try (specialize (H1 eq_refl); discriminate);
    split; auto; try lia; try discriminate.
Qed.

Lemma compareFn_consistent (k : string) (order : Order) :
  Js.consistent_on (has_string k) (QueryBuilder.compareFn StringToNumber k order).
Proof.
  split.
  - intros a b [s Ha] [t Hb].
    rewrite (compareFn_strings k order a b s t Ha Hb),
            (compareFn_strings k order b a t s Hb Ha).
    destruct order; [destruct (ltb_false_total s t) | apply ltb_false_total]; auto.
  - intros a b c [s Ha] [t Hb] [u Hc].
    rewrite (compareFn_strings k order a b s t Ha Hb),
            (compareFn_strings k order b c t u Hb Hc),
            (compareFn_strings k order a c s u Ha Hc).
    destruct order; [|apply ltb_false_trans].
    intros H1 H2. exact (ltb_false_trans u t s H2 H1).
Qed.

Lemma sort_strings_sorted (k : string) (order : Order) (l : list Obj) :
  Forall (has_string k) l ->
  StronglySorted (fun a b => QueryBuilder.compareFn StringToNumber k order a b <= 0)
    (Js.sort (QueryBuilder.compareFn StringToNumber k order) l).
Proof. apply sort_sorted, compareFn_consistent. Qed.

(** X4.  When every record of the working sequence has a string under the
    key, [sort] leaves the sequence in order: with ["asc"] no record has a
    string above that of a later record, with ["desc"] none has a string
    below that of a later record. *)
Theorem sort_strings_in_order (k : string) (order : Order) (q : QueryBuilder.t) :
  Forall (has_string k) (QueryBuilder.exec q) ->
  StronglySorted (in_order k order)
    (QueryBuilder.exec (QueryBuilder.sort StringToNumber k order q)).
Proof.
  intros HP. unfold QueryBuilder.exec, QueryBuilder.sort in *. simpl.
  pose proof (sort_strings_sorted k order _ HP) as Hs.
  induction Hs as [|a l Hs IH Ha]; constructor; [exact IH|].
  eapply Forall_impl; [exact Ha|].
  intros b Hab. destruct order; intros s t Has Hbt.
  - exact (proj1 (compareFn_strings k asc a b s t Has Hbt) Hab).
  - exact (proj1 (compareFn_strings k desc a b s t Has Hbt) Hab).
Qed.

(** X5.  On string keys sorting twice is sorting once: a sequence that
    [sort] has put in order is left as it is by the same [sort]. *)
Theorem sort_idempotent (k : string) (order : Order) (q : QueryBuilder.t) :
  Forall (has_string k) (QueryBuilder.exec q) ->
  QueryBuilder.sort StringToNumber k order (QueryBuilder.sort StringToNumber k order q) =
  QueryBuilder.sort StringToNumber k order q.
Proof.
  intros HP. unfold QueryBuilder.exec, QueryBuilder.sort in *. simpl. f_equal.
  apply sort_fixes_sorted, sort_strings_sorted, HP.
Qed.

End BuilderLaws.

(** X6.  Below zero [limit] counts from the end: for [n < 0] it drops the
    last [-n] records of the working sequence (all of them when there are no
    more than [-n]) and keeps the others in place. *)
Theorem limit_drops_from_the_end (n : Z) (q : QueryBuilder.t) :
  n < 0 ->
  QueryBuilder.exec (QueryBuilder.limit n q) =
    firstn (length (QueryBuilder.exec q) - Z.to_nat (- n)) (QueryBuilder.exec q) /\
  Z.of_nat (length (QueryBuilder.exec (QueryBuilder.limit n q))) =
    Z.max (Z.of_nat (length (QueryBuilder.exec q)) + n) 0.
Proof.
  intros Hn. unfold QueryBuilder.exec, QueryBuilder.limit. simpl.
  rewrite (slice_from_0_neg n _ Hn). split; [reflexivity|].
  rewrite length_firstn. lia.
Qed.

(** X7.  Two filters in a row keep the records that pass both predicates,
    whichever filter comes first. *)
Theorem filter_filter (p1 p2 : Obj -> bool) (q : QueryBuilder.t) :
  QueryBuilder.filter p2 (QueryBuilder.filter p1 q) =
    QueryBuilder.filter (fun r => p1 r && p2 r) q /\
  QueryBuilder.filter p2 (QueryBuilder.filter p1 q) =
    QueryBuilder.filter p1 (QueryBuilder.filter p2 q).
Proof.
  unfold QueryBuilder.filter. simpl.
  assert (H : forall (f g : Obj -> bool) l,
            List.filter g (List.filter f l) = List.filter (fun r => f r && g r) l).
  { intros f g l. induction l as [|x l IH]; simpl; [reflexivity|].
    destruct (f x) eqn:Hf; simpl; [destruct (g x)|]; rewrite IH; reflexivity. }
  split; [f_equal; apply H|].
  f_equal. rewrite !H. apply List.filter_ext. intros r. apply andb_comm.
Qed.

(** X8.  Two limits that are not negative act as the smaller one. *)
Theorem limit_limit (m n : Z) (q : QueryBuilder.t) :
  0 <= m -> 0 <= n ->
  QueryBuilder.limit n (QueryBuilder.limit m q) = QueryBuilder.limit (Z.min m n) q.
Proof.
  intros Hm Hn. unfold QueryBuilder.limit. simpl. f_equal.
  rewrite !slice_from_0_nonneg by lia.
  rewrite firstn_firstn. f_equal. lia.
Qed.

Lemma three_have_createdAt : Forall (has_string "createdAt") Todo.three.
Proof.
  vm_compute. repeat constructor; eexists; reflexivity.
Qed.

Lemma sort_strings_in_order_witness :
  StronglySorted (in_order "createdAt" desc)
    (QueryBuilder.exec
       (QueryBuilder.sort Todo.not_numeric "createdAt" desc (QueryBuilder.new Todo.three))).
Proof.
  apply (sort_strings_in_order Todo.not_numeric "createdAt" desc
           (QueryBuilder.new Todo.three)).
  exact three_have_createdAt.
Defined.

Lemma sort_idempotent_witness :
  QueryBuilder.sort Todo.not_numeric "createdAt" asc
    (QueryBuilder.sort Todo.not_numeric "createdAt" asc (QueryBuilder.new Todo.three)) =
  QueryBuilder.sort Todo.not_numeric "createdAt" asc (QueryBuilder.new Todo.three).
Proof.
  apply (sort_idempotent Todo.not_numeric "createdAt" asc (QueryBuilder.new Todo.three)).
  exact three_have_createdAt.
Defined.

Lemma limit_drops_from_the_end_witness :
  Z.of_nat (length (QueryBuilder.exec
                      (QueryBuilder.limit (-2) (QueryBuilder.new Todo.three)))) = 1.
Proof.
  refine (eq_trans
    (proj2 (limit_drops_from_the_end (-2) (QueryBuilder.new Todo.three) _)) _).
  - lia.
  - vm_compute. reflexivity.
Defined.

Lemma limit_limit_witness :
  QueryBuilder.limit 1 (QueryBuilder.limit 2 (QueryBuilder.new Todo.three)) =
  QueryBuilder.limit (Z.min 2 1) (QueryBuilder.new Todo.three).
Proof.
  apply (limit_limit 2 1 (QueryBuilder.new Todo.three)); lia.
Defined.

(** * Further laws of the store *)

Section ListFacts.

Context {A : Type}.

Lemma find_head_filter (f : A -> bool) (l : list A) :
  List.find f l = head (List.filter f l).
Proof.
  induction l as [|x l IH]; simpl; [reflexivity|].
  destruct (f x); [reflexivity | exact IH].
Qed.

Lemma some_is_Some_find (f : A -> bool) (l : list A) :
  Js.some f l = match List.find f l with Some _ => true | None => false end.
Proof.
  unfold Js.some. induction l as [|x l IH]; simpl; [reflexivity|].
  destruct (f x); [reflexivity | exact IH].
Qed.


Lemma findIndex_first (f : A -> bool) (l : list A) (i : nat) :
  Js.findIndex f l = Some i ->
  exists x, l !! i = Some x /\ f x = true /\
    forall j y, (j < i)%nat -> l !! j = Some y -> f y = false.
Proof.
  revert i. induction l as [|x l IH]; simpl; [discriminate|].
  intros i. destruct (f x) eqn:Hf.
  - intros [= <-]. exists x. repeat split; auto. intros j y Hj. lia.
  - destruct (Js.findIndex f l) as [i'|]; [|discriminate].
    intros [= <-]. destruct (IH i' eq_refl) as (z & Hz & Hfz & Hlt).
    exists z. repeat split; auto.
    intros [|j] y Hj; simpl; [congruence|].
    apply Hlt. lia.
Qed.

Lemma find_insert_at_findIndex (f : A -> bool) (l : list A) (i : nat) (r : A) :
  Js.findIndex f l = Some i -> f r = true -> List.find f (<[i := r]> l) = Some r.
Proof.
  intros Hi Hr. revert i Hi. induction l as [|x l IH]; simpl; [discriminate|].
  intros i. destruct (f x) eqn:Hf.
  - intros [= <-]. simpl. rewrite Hr. reflexivity.
  - destruct (Js.findIndex f l) as [i'|]; [|discriminate].
    intros [= <-]. simpl. rewrite Hf. apply IH. reflexivity.
Qed.

Lemma nth_lookup_default (l : list A) (i : nat) (d x : A) :
  l !! i = Some x -> nth i l d = x.
Proof.
  revert i. induction l as [|y l IH]; intros [|i]; simpl; try discriminate.
  - congruence.
  - apply IH.
Qed.

End ListFacts.

(** X9.  A read-only method does one read of the file and nothing else:
    after [getAll], [getById], [find], [first], [count], [exists] or
    [query], whether it returned or threw, the file, the lock and the disk are
    as before and the access log has one more read. *)
Theorem reads_only_read (w : World) (id : string) (p : Obj -> bool)
    (f : option (Obj -> bool)) :
  snd (JsonFileStore.getAll w) = add_log EvRead w /\
  snd (JsonFileStore.getById id w) = add_log EvRead w /\
  snd (JsonFileStore.find p w) = add_log EvRead w /\
  snd (JsonFileStore.first p w) = add_log EvRead w /\
  snd (JsonFileStore.count f w) = add_log EvRead w /\
  snd (JsonFileStore.exists_ id w) = add_log EvRead w /\
  snd (JsonFileStore.query w) = add_log EvRead w.
Proof. read_only. repeat split; reflexivity. Qed.

(** X10.  The read-only methods agree with one another.  When [getAll()]
    returns an array [data] of records, [find(p)] returns those of [data] for
    which [p] holds, [first(p)] the first of them, [count(p)] their number,
    [getById(id)] the first record carrying the id, [exists(id)] whether
    there is one, and [query().exec()] returns [data].  When [getAll()]
    throws, each of the others throws the same error. *)
Theorem reads_agree (w : World) (id : string) (p : Obj -> bool) :
  (forall data, fst (JsonFileStore.getAll w) = Ok data ->
     fst (JsonFileStore.find p w) = Ok (List.filter p data) /\
     fst (JsonFileStore.first p w) = Ok (head (List.filter p data)) /\
     fst (JsonFileStore.count (Some p) w) = Ok (length (List.filter p data)) /\
     fst (JsonFileStore.getById id w) = Ok (head (List.filter (id_is id) data)) /\
     fst (JsonFileStore.exists_ id w) =
       Ok (match head (List.filter (id_is id) data) with
           | Some _ => true
           | None => false
           end) /\
     outcome_map QueryBuilder.exec (fst (JsonFileStore.query w)) = Ok data) /\
  (forall e, fst (JsonFileStore.getAll w) = Throw e ->
     fst (JsonFileStore.find p w) = Throw e /\
     fst (JsonFileStore.first p w) = Throw e /\
     fst (JsonFileStore.count (Some p) w) = Throw e /\
     fst (JsonFileStore.getById id w) = Throw e /\
     fst (JsonFileStore.exists_ id w) = Throw e /\
     fst (JsonFileStore.query w) = Throw e).
Proof.
  read_only. simpl. split.
  - intros data Hs. rewrite Hs. simpl.
    rewrite <- !find_head_filter, some_is_Some_find. repeat split; reflexivity.
  - intros e Hs. rewrite Hs. simpl. repeat split; reflexivity.
Qed.



(** The three ways [update] can go once the file has been read. *)
Lemma update_unfold {I : Type} (schema : ZodSchema I)
    (id : string) (updates : Obj) (w : World) (data : list Obj) :
  stored (file w) = Ok data ->
  JsonFileStore.update schema id updates w =
  match Js.findIndex (id_is id) data with
  | None => (Ok None, add_log EvRead w)
  | Some index =>
      let item := nth index data ∅ in
      match partial_parse schema (spread item updates) with
      | None => (Throw ZodError, add_log EvRead w)
      | Some parsed =>
          (await_ JsonFileStore.writeFile (<[index := spread item parsed]> data) in
           ret (Some (nth index (<[index := spread item parsed]> data) ∅)))
            (add_log EvRead w)
      end
  end.
Proof.
  intros Hs. unfold JsonFileStore.update. unfold bind at 1.
  rewrite readFile_stored, Hs.
  destruct (Js.findIndex (id_is id) data); [|reflexivity].
  cbv zeta. destruct (partial_parse schema _); reflexivity.
Qed.


(** X14.  When the partial schema rejects the merge of the stored record and
    the updates, [update] throws the validation error after its one read:
    nothing is written and the lock is not touched. *)
Theorem update_invalid_no_write {I : Type} (schema : ZodSchema I)
    (id : string) (updates item : Obj) (w : World) :
  fst (JsonFileStore.getById id w) = Ok (Some item) ->
  partial_parse schema (spread item updates) = None ->
  JsonFileStore.update schema id updates w = (Throw ZodError, add_log EvRead w).
Proof.
  read_only. simpl. intros Hg Hp.
  destruct (stored (file w)) as [data | e | ] eqn:Hs; try discriminate.
  injection Hg as Hfind.
  rewrite (update_unfold schema id updates w data Hs).
  destruct (findIndex_find (id_is id) ∅ data item Hfind) as (i & Hi & Hn & _).
  rewrite Hi. cbv zeta. rewrite Hn, Hp. reflexivity.
Qed.

(** What [writeFile] does on a free lock when the disk rejects the write. *)
Lemma writeFile_fails (data : list Obj) (w : World) (f : WriteFailure) :
  lock w = WriteLock.new -> wfail w = Some f ->
  JsonFileStore.writeFile data w =
  (Throw (FsError (wcode f)), add_log (EvWrite data) (after_failure f w)).
Proof.
  intros Hl Hw. unfold JsonFileStore.writeFile, fs_writeFile, after_failure.
  destruct w as [fl wf l lg]. simpl in *. subst. destruct (wleft f); reflexivity.
Qed.

(** What [writeFile] does when the lock is taken. *)
Lemma writeFile_busy (data : list Obj) (w : World) :
  WriteLock.locked (lock w) = true ->
  JsonFileStore.writeFile data w =
  (Pending, set_lock (WriteLock.mk true (WriteLock.queue (lock w) ++ [data])) w).
Proof.
  intros Hl. unfold JsonFileStore.writeFile, WriteLock.acquire.
  rewrite Hl. reflexivity.
Qed.

(** X15.  When the disk rejects the write, a mutation that gets as far as
    writing throws the disk's error: [create] of a valid input, [delete] of
    an id that is stored, [update] of a stored record with updates the schema
    accepts.  Nothing is rolled back: the file is as the failed write left it
    (untouched when the file could not be opened, else emptied or holding a
    partial text), the attempted write is in the log, and the lock is free
    again. *)
Theorem write_failure_propagates {I : Type} (schema : ZodSchema I)
    (w : World) (f : WriteFailure) (data : list Obj) :
  lock w = WriteLock.new -> wfail w = Some f ->
  fst (JsonFileStore.getAll w) = Ok data ->
  (forall uuid input parsed,
     parse schema input = Some parsed ->
     JsonFileStore.create schema uuid input w =
       (Throw (FsError (wcode f)),
        add_log (EvWrite (data ++ [spread parsed {[ "id" := JStr uuid ]}]))
          (after_failure f (add_log EvRead w)))) /\
  (forall id,
     fst (JsonFileStore.exists_ id w) = Ok true ->
     JsonFileStore.delete id w =
       (Throw (FsError (wcode f)),
        add_log (EvWrite (List.filter (fun item => negb (id_is id item)) data))
          (after_failure f (add_log EvRead w)))) /\
  (forall id updates item parsed,
     fst (JsonFileStore.getById id w) = Ok (Some item) ->
     partial_parse schema (spread item updates) = Some parsed ->
     fst (JsonFileStore.update schema id updates w) = Throw (FsError (wcode f)) /\
     file (snd (JsonFileStore.update schema id updates w)) =
       file (after_failure f w) /\
     lock (snd (JsonFileStore.update schema id updates w)) = WriteLock.new).
Proof.
  read_only. simpl. intros Hl Hw Hs. split; [|split].
  - intros uuid input parsed Hp. unfold JsonFileStore.create. rewrite Hp.
    unfold bind. rewrite readFile_stored, Hs.
    rewrite (writeFile_fails _ (add_log EvRead w) f Hl Hw). reflexivity.
  - intros id. read_only. simpl. rewrite Hs. intros [= He].
    unfold JsonFileStore.delete, bind. rewrite readFile_stored, Hs.
    destruct (Nat.eqb _ _) eqn:E.
    + apply Nat.eqb_eq, filter_negb_same_length in E. congruence.
    + rewrite (writeFile_fails _ (add_log EvRead w) f Hl Hw). reflexivity.
  - intros id updates item parsed. read_only. simpl. rewrite Hs.
    intros [= Hfind] Hp.
    rewrite (update_unfold schema id updates w data Hs).
    destruct (findIndex_find (id_is id) ∅ data item Hfind) as (i & Hi & Hn & _).
    rewrite Hi. cbv zeta. rewrite Hn, Hp. unfold bind.
    rewrite (writeFile_fails _ (add_log EvRead w) f Hl Hw).
    unfold after_failure. destruct (wleft f); auto.
Qed.

(** X16.  While the lock is taken, a mutation that gets as far as writing
    does not touch the file: its data goes to the back of the lock's queue
    and the call stays pending.  Shown for [create] of a valid input. *)
Theorem create_waits_for_lock {I : Type} (schema : ZodSchema I)
    (uuid : string) (input : I) (parsed : Obj) (w : World) (data : list Obj) :
  WriteLock.locked (lock w) = true ->
  parse schema input = Some parsed ->
  fst (JsonFileStore.getAll w) = Ok data ->
  fst (JsonFileStore.create schema uuid input w) = Pending /\
  file (snd (JsonFileStore.create schema uuid input w)) = file w /\
  log (snd (JsonFileStore.create schema uuid input w)) = log w ++ [EvRead] /\
  lock (snd (JsonFileStore.create schema uuid input w)) =
    WriteLock.mk true
      (WriteLock.queue (lock w) ++ [data ++ [spread parsed {[ "id" := JStr uuid ]}]]).
Proof.
  read_only. simpl. intros Hl Hp Hs.
  unfold JsonFileStore.create. rewrite Hp. unfold bind.
  rewrite readFile_stored, Hs.
  rewrite (writeFile_busy _ (add_log EvRead w) Hl). auto.
Qed.

Lemma writeFile_lock_free (data : list Obj) (w : World) :
  lock w = WriteLock.new -> lock (snd (JsonFileStore.writeFile data w)) = WriteLock.new.
Proof.
  intros Hl. unfold JsonFileStore.writeFile, fs_writeFile.
  destruct w as [f wf l lg]. simpl in *. subst. simpl.
  destruct wf as [[code [c|]]|]; reflexivity.
Qed.

(** X17.  No method leaves the lock taken: started with the lock free,
    [create], [update] and [delete] end with the lock free, whether they
    returned or threw (a failed write included). *)
Theorem lock_released {I : Type} (schema : ZodSchema I) (w : World)
    (uuid id : string) (input : I) (updates : Obj) :
  lock w = WriteLock.new ->
  lock (snd (JsonFileStore.create schema uuid input w)) = WriteLock.new /\
  lock (snd (JsonFileStore.update schema id updates w)) = WriteLock.new /\
  lock (snd (JsonFileStore.delete id w)) = WriteLock.new.
Proof.
  intros Hl.
  assert (HW : forall (A : Type) (data : list Obj) (a : A),
    lock (snd ((await_ JsonFileStore.writeFile data in ret a) (add_log EvRead w))) =
    WriteLock.new).
  { intros A data a. unfold bind.
    pose proof (writeFile_lock_free data (add_log EvRead w) Hl) as H.
    destruct (JsonFileStore.writeFile _ _) as [[[] | e | ] w1]; exact H. }
  split; [|split].
  - unfold JsonFileStore.create. destruct (parse schema input); [|exact Hl].
    unfold bind at 1. rewrite readFile_stored.
    destruct (stored (file w)); try exact Hl. apply HW.
  - unfold JsonFileStore.update. unfold bind at 1. rewrite readFile_stored.
    destruct (stored (file w)) as [data | e | ]; try exact Hl.
    destruct (Js.findIndex _ _); [|exact Hl]. cbv zeta.
    destruct (partial_parse schema _); [|exact Hl]. apply HW.
  - unfold JsonFileStore.delete. unfold bind at 1. rewrite readFile_stored.
    destruct (stored (file w)) as [data | e | ]; try exact Hl.
    destruct (Nat.eqb _ _); [exact Hl|]. apply HW.
Qed.

(** ** Identifiers stay unique *)

Lemma create_cases {I : Type} (schema : ZodSchema I)
    (uuid : string) (input : I) (w w' : World) (r : Obj) (data : list Obj) :
  stored (file w) = Ok data ->
  JsonFileStore.create schema uuid input w = (Ok r, w') ->
  exists parsed, parse schema input = Some parsed /\
    r = <["id" := JStr uuid]> parsed /\
    file w' = Holds (JsonArray (data ++ [r])).
Proof.
  intros Hs. unfold JsonFileStore.create.
  destruct (parse schema input) as [parsed|]; [|discriminate].
  unfold bind. rewrite readFile_stored, Hs, spread_id.
  pose proof (writeFile_file (data ++ [<["id" := JStr uuid]> parsed])
                (add_log EvRead w)) as HW.
  destruct (JsonFileStore.writeFile _ _) as [[[] | e | ] w1]; try discriminate.
  intros [= <- <-]. eauto.
Qed.

Lemma update_cases {I : Type} (schema : ZodSchema I)
    (id : string) (updates : Obj) (w w' : World) (r : Obj) (data : list Obj) :
  stored (file w) = Ok data ->
  JsonFileStore.update schema id updates w = (Ok (Some r), w') ->
  exists index item parsed,
    data !! index = Some item /\
    Js.findIndex (id_is id) data = Some index /\
    List.find (id_is id) data = Some item /\
    partial_parse schema (spread item updates) = Some parsed /\
    r = spread item parsed /\
    file w' = Holds (JsonArray (<[index := r]> data)).
Proof.
  intros Hs Hu.
  rewrite (update_unfold schema id updates w data Hs) in Hu.
  destruct (Js.findIndex (id_is id) data) as [index|] eqn:Hi; [|discriminate].
  destruct (findIndex_first _ _ _ Hi) as (item & Hl & Hid & Hfirst).
  cbv zeta in Hu. rewrite (nth_lookup_default data index ∅ item Hl) in Hu.
  destruct (partial_parse schema (spread item updates)) as [parsed|] eqn:Hp;
    [|discriminate].
  exists index, item, parsed. unfold bind in Hu.
  pose proof (writeFile_file (<[index := spread item parsed]> data) (add_log EvRead w)) as HW.
  destruct (JsonFileStore.writeFile _ _) as [[[] | e | ] w1]; try discriminate.
  assert (Hn : nth index (<[index := spread item parsed]> data) ∅ = spread item parsed).
  { apply nth_lookup_default. apply list_lookup_insert_eq. eapply lookup_lt_Some; eauto. }
  rewrite Hn in Hu. injection Hu as <- <-.
  repeat split; auto.
  clear -Hi Hl. revert index Hi Hl.
  induction data as [|x data IH]; simpl; [discriminate|].
  intros index. destruct (id_is id x).
  - intros [= <-]. simpl. congruence.
  - destruct (Js.findIndex (id_is id) data) as [i'|]; [|discriminate].
    intros [= <-]. simpl. apply IH. reflexivity.
Qed.

(** The hypothesis of C4 cannot be weakened: an [update(id, {})] that
    returns the stored record as it was has had the partial schema accept
    the record and hand back fields of it. *)
Lemma update_empty_needs_satisfies {I : Type} (schema : ZodSchema I)
    (id : string) (r : Obj) (w w' : World) :
  fst (JsonFileStore.getById id w) = Ok (Some r) ->
  JsonFileStore.update schema id ∅ w = (Ok (Some r), w') ->
  satisfies schema r.
Proof.
  intros Hg Hu. revert Hg. read_only. simpl.
  destruct (stored (file w)) as [data | e | ] eqn:Hs; try discriminate.
  intros [= Hfind].
  destruct (update_cases schema id ∅ w w' r data Hs Hu)
    as (index & item & parsed & _ & _ & Hfind' & Hp & Hr & _).
  rewrite Hfind in Hfind'. injection Hfind' as <-.
  assert (Hsp : spread r ∅ = r) by (unfold spread; apply (left_id_L ∅ (∪))).
  rewrite Hsp in Hp. exists parsed. split; [exact Hp|].
  rewrite Hr. unfold spread. apply map_union_subseteq_l.
Qed.

Lemma fresh_id_not_in (uuid : string) (data : list Obj) :
  Js.some (id_is uuid) data = false ->
  Some (JStr uuid) ∉ map (fun r : Obj => r !! "id") data.
Proof.
  unfold Js.some. induction data as [|x data IH]; simpl.
  - intros _ H. inversion H.
  - intros H. apply orb_false_iff in H as [Hx Hd].
    unfold id_is in Hx. apply bool_decide_eq_false in Hx.
    rewrite not_elem_of_cons. split; [congruence | auto].
Qed.

Lemma NoDup_map_filter {A B : Type} (f : A -> B) (g : A -> bool) (l : list A) :
  NoDup (map f l) -> NoDup (map f (List.filter g l)).
Proof.
  induction l as [|x l IH]; simpl; [auto|].
  rewrite NoDup_cons. intros [Hx Hl].
  destruct (g x); simpl; [|auto].
  apply NoDup_cons. split; [|auto].
  intros Hin. apply Hx. apply list_elem_of_In in Hin. apply list_elem_of_In.
  apply in_map_iff in Hin as (y & Hy & Hyin). apply in_map_iff.
  exists y. split; [exact Hy|]. apply List.filter_In in Hyin. tauto.
Qed.

(** X18.  Let the collection be readable with no two records under the same
    id.  It stays so after a [create] whose fresh identifier no stored record
    carries, after a [delete], and after an [update] when the partial schema
    hands back no [id] property. *)
Theorem ids_stay_unique {I : Type} (schema : ZodSchema I)
    (w : World) (data : list Obj) :
  fst (JsonFileStore.getAll w) = Ok data ->
  unique_ids data ->
  (forall uuid input r w',
     fst (JsonFileStore.exists_ uuid w) = Ok false ->
     JsonFileStore.create schema uuid input w = (Ok r, w') ->
     exists data', fst (JsonFileStore.getAll w') = Ok data' /\ unique_ids data') /\
  (forall id b w',
     JsonFileStore.delete id w = (Ok b, w') ->
     exists data', fst (JsonFileStore.getAll w') = Ok data' /\ unique_ids data') /\
  (strips_id schema ->
   forall id updates r w',
     JsonFileStore.update schema id updates w = (Ok r, w') ->
     exists data', fst (JsonFileStore.getAll w') = Ok data' /\ unique_ids data').
Proof.
  read_only. simpl. intros Hs Hu. split; [|split].
  - intros uuid input r w'. read_only. simpl. rewrite Hs. intros [= Hfresh] Hc.
    destruct (create_cases schema uuid input w w' r data Hs Hc) as (parsed & _ & -> & Hf).
    exists (data ++ [<["id" := JStr uuid]> parsed]). read_only. rewrite Hf. simpl.
    split; [reflexivity|]. unfold unique_ids. rewrite map_app. simpl.
    apply NoDup_app. split; [exact Hu|]. split; [|apply NoDup_singleton].
    intros x Hx Hin. apply list_elem_of_singleton in Hin. subst x.
    rewrite lookup_insert_eq in Hx. by apply (fresh_id_not_in uuid data Hfresh).
  - intros id b w' Hd.
    destruct (delete_cases id w b w' Hd) as (data0 & Hs0 & Hc).
    rewrite Hs in Hs0. injection Hs0 as <-.
    destruct Hc as [(_ & _ & Hf) | (_ & Hf)]; read_only; rewrite Hf; simpl.
    + rewrite Hs. eauto.
    + eexists. split; [reflexivity|]. by apply NoDup_map_filter.
  - intros Hstrip id updates r w' Hup.
    destruct r as [r|].
    + destruct (update_cases schema id updates w w' r data Hs Hup)
        as (index & item & parsed & Hl & _ & _ & Hp & -> & Hf).
      eexists. read_only. rewrite Hf. simpl. split; [reflexivity|].
      unfold unique_ids.
      replace (map (fun r : Obj => r !! "id") (<[index := spread item parsed]> data))
        with (map (fun r : Obj => r !! "id") data); [exact Hu|].
      symmetry. change (map ?f ?l) with (f <$> l). rewrite list_fmap_insert.
      apply list_insert_id. rewrite list_lookup_fmap, Hl. simpl. f_equal.
      unfold spread. symmetry. apply lookup_union_r. eapply Hstrip; eauto.
    + rewrite (update_unfold schema id updates w data Hs) in Hup.
      destruct (Js.findIndex (id_is id) data).
      * cbv zeta in Hup. destruct (partial_parse schema _); [|discriminate].
        unfold bind in Hup.
        destruct (JsonFileStore.writeFile _ _) as [[[] | e | ] w1]; discriminate.
      * injection Hup as <-. exists data. read_only. simpl. rewrite Hs. auto.
Qed.

(** ** Overlapping updates *)

(** The two halves, one after the other, are [update]. *)
Lemma update_split {I : Type} (schema : ZodSchema I)
    (id : string) (updates : Obj) (w : World) :
  JsonFileStore.update schema id updates w =
  (await plan := Overlap.prepare schema id updates in Overlap.commit plan) w.
Proof.
  unfold JsonFileStore.update, Overlap.prepare, Overlap.commit, bind.
  rewrite readFile_stored.
  destruct (stored (file w)) as [data | e | ]; try reflexivity.
  destruct (Js.findIndex (id_is id) data); [|reflexivity].
  cbv zeta. destruct (partial_parse schema _); reflexivity.
Qed.

(** The first half only reads, and what it plans depends on the file alone. *)
Lemma prepare_reads {I : Type} (schema : ZodSchema I)
    (id : string) (updates : Obj) (w : World) :
  snd (Overlap.prepare schema id updates w) = add_log EvRead w.
Proof.
  unfold Overlap.prepare, bind. rewrite readFile_stored.
  destruct (stored (file w)) as [data | e | ]; try reflexivity.
  destruct (Js.findIndex (id_is id) data); [|reflexivity].
  cbv zeta. destruct (partial_parse schema _); reflexivity.
Qed.

Lemma prepare_file {I : Type} (schema : ZodSchema I)
    (id : string) (updates : Obj) (w1 w2 : World) :
  file w1 = file w2 ->
  fst (Overlap.prepare schema id updates w1) = fst (Overlap.prepare schema id updates w2).
Proof.
  intros H. unfold Overlap.prepare, bind. rewrite !readFile_stored, H.
  destruct (stored (file w2)) as [data | e | ]; try reflexivity.
  destruct (Js.findIndex (id_is id) data); [|reflexivity].
  cbv zeta. destruct (partial_parse schema _); reflexivity.
Qed.

Lemma commit_idle (data : list Obj) (index : nat) (w : World) :
  idle w ->
  Overlap.commit (Some (data, index)) w =
  (Ok (Some (nth index data ∅)),
   add_log (EvWrite data) (set_file (Holds (JsonArray data)) w)).
Proof.
  intros Hidle. unfold Overlap.commit, bind.
  rewrite (writeFile_idle data w Hidle). reflexivity.
Qed.

(** X19.  The lock does not make [update] atomic.  In an idle world, let
    calls A and B be such that each alone would return a record.  If both
    read before either writes, both still return the record they would have
    returned alone, but the collection left in the file is the one B alone
    would have left: what A wrote is gone. *)
Theorem lost_update {I : Type} (schema : ZodSchema I)
    (idA idB : string) (updatesA updatesB : Obj) (rA rB : Obj) (w : World) :
  idle w ->
  fst (JsonFileStore.update schema idA updatesA w) = Ok (Some rA) ->
  fst (JsonFileStore.update schema idB updatesB w) = Ok (Some rB) ->
  fst (Overlap.both_read_first schema idA updatesA idB updatesB w) =
    Ok (Some rA, Some rB) /\
  file (snd (Overlap.both_read_first schema idA updatesA idB updatesB w)) =
    file (snd (JsonFileStore.update schema idB updatesB w)).
Proof.
  intros Hidle HA HB.
  assert (Hprep : forall id updates w0,
    Overlap.prepare schema id updates w0 =
    (fst (Overlap.prepare schema id updates w0), add_log EvRead w0)).
  { intros id updates w0. rewrite <- (prepare_reads schema id updates w0).
    apply surjective_pairing. }
  assert (Hplan : forall id updates r,
    fst (JsonFileStore.update schema id updates w) = Ok (Some r) ->
    exists d i, fst (Overlap.prepare schema id updates w) = Ok (Some (d, i)) /\
                nth i d ∅ = r).
  { intros id updates r. rewrite update_split. unfold bind. rewrite Hprep.
    destruct (fst (Overlap.prepare schema id updates w)) as [[[d i]|] | e | ];
      try discriminate.
    rewrite (commit_idle d i (add_log EvRead w) Hidle). simpl.
    intros [= <-]. eauto. }
  destruct (Hplan idA updatesA rA HA) as (dA & iA & EA & <-).
  destruct (Hplan idB updatesB rB HB) as (dB & iB & EB & <-).
  assert (EB' : fst (Overlap.prepare schema idB updatesB (add_log EvRead w)) =
                Ok (Some (dB, iB))).
  { rewrite (prepare_file schema idB updatesB (add_log EvRead w) w eq_refl). exact EB. }
  rewrite (update_split schema idB updatesB w).
  unfold Overlap.both_read_first, bind.
  rewrite (Hprep idA updatesA w), EA.
  rewrite (Hprep idB updatesB (add_log EvRead w)), EB'.
  rewrite (commit_idle dA iA (add_log EvRead (add_log EvRead w)) Hidle).
  rewrite commit_idle by exact Hidle.
  rewrite (Hprep idB updatesB w), EB.
  rewrite (commit_idle dB iB (add_log EvRead w) Hidle).
  split; reflexivity.
Qed.

(** ** Draining the lock *)

Lemma run_releases (h : LockSystem.Caller) (q arr gr : list LockSystem.Caller) :
  LockSystem.run (map LockSystem.Release (h :: q))
    (LockSystem.mkState (WriteLock.mk true q) [h] arr gr) =
  Some (LockSystem.mkState WriteLock.new [] arr (gr ++ q)).
Proof.
  revert h gr. induction q as [|next q IH]; intros h gr.
  - simpl. rewrite Nat.eqb_refl. simpl. rewrite app_nil_r. reflexivity.
  - cbn [map LockSystem.run]. unfold LockSystem.step at 1. simpl.
    rewrite Nat.eqb_refl. simpl.
    change (LockSystem.run (map LockSystem.Release (next :: q))
              (LockSystem.mkState (WriteLock.mk true q) [next] arr (gr ++ [next])) =
            Some (LockSystem.mkState WriteLock.new [] arr (gr ++ next :: q))).
    rewrite IH, <- app_assoc. reflexivity.
Qed.

(** X20.  No waiter is left behind.  In every reachable state a free lock has
    an empty queue; and when the lock is held and every caller in turn
    releases it, the waiters get the lock one after the other in the order of
    the queue, after which the lock is free and the queue empty. *)
Theorem lock_drains (s : LockSystem.state) :
  LockSystem.reachable s ->
  (WriteLock.locked (LockSystem.lk s) = false ->
     WriteLock.queue (LockSystem.lk s) = []) /\
  (forall h, LockSystem.holders s = [h] ->
     LockSystem.run
       (map LockSystem.Release (h :: WriteLock.queue (LockSystem.lk s))) s =
     Some (LockSystem.mkState WriteLock.new [] (LockSystem.arrived s)
             (LockSystem.granted s ++ WriteLock.queue (LockSystem.lk s)))).
Proof.
  intros Hr. destruct (reachable_inv s Hr) as (Hfree & Hheld & Hfifo).
  split; [intros H; apply (Hfree H)|].
  intros h Hh. destruct s as [[lkd q] hs arr gr]. simpl in *. subst hs.
  destruct lkd; [apply run_releases|].
  destruct (Hfree eq_refl) as [? _]. discriminate.
Qed.

Lemma lock_drains_witness :
  LockSystem.run [LockSystem.Release 2%nat; LockSystem.Release 3%nat]
    LockSystem.after_schedule =
  Some (LockSystem.mkState WriteLock.new [] [2%nat; 3%nat] [2%nat; 3%nat]).
Proof.
  refine (proj2 (lock_drains LockSystem.after_schedule _) 2%nat eq_refl).
  apply (run_reachable LockSystem.schedule LockSystem.init);
    [apply LockSystem.reach_init | reflexivity].
Defined.

(** * Laws of the demo's schema *)

Lemma lookup_three (t d c : JsVal) (k : string) :
  (<["title" := t]> (<["done" := d]> (<["createdAt" := c]> (∅ : Obj)))) !! k =
  if decide (k = "title") then Some t
  else if decide (k = "done") then Some d
  else if decide (k = "createdAt") then Some c
  else None.
Proof.
  destruct (decide (k = "title")) as [-> | N1]; [apply lookup_insert_eq|].
  rewrite lookup_insert_ne by congruence.
  destruct (decide (k = "done")) as [-> | N2]; [apply lookup_insert_eq|].
  rewrite lookup_insert_ne by congruence.
  destruct (decide (k = "createdAt")) as [-> | N3]; [apply lookup_insert_eq|].
  rewrite lookup_insert_ne by congruence. apply lookup_empty.
Qed.

Lemma field_cases (key : string) (type : JsVal -> bool) (default : option JsVal)
    (input : Obj) (v : JsVal) :
  Todo.field key type default input = Some v <->
  (input !! key = Some v /\ type v = true) \/ (input !! key = None /\ default = Some v).
Proof.
  unfold Todo.field. destruct (input !! key) as [x|].
  - destruct (type x) eqn:E; split.
    + intros [= <-]. auto.
    + intros [[[= <-] _] | [? _]]; [reflexivity | discriminate].
    + discriminate.
    + intros [[[= <-] ?] | [? _]]; congruence.
  - split; [auto|]. intros [[? _] | [_ ?]]; [discriminate | assumption].
Qed.

Lemma is_string_inv (v : JsVal) : Todo.is_string v = true <-> exists s, v = JStr s.
Proof.
  destruct v; simpl; split; try discriminate; eauto;
    intros [? ?]; discriminate.
Qed.

Lemma is_boolean_inv (v : JsVal) : Todo.is_boolean v = true <-> exists b, v = JBool b.
Proof.
  destruct v; simpl; split; try discriminate; eauto;
    intros [? ?]; discriminate.
Qed.

Lemma todo_parse_inv (now : string) (input parsed : Obj) :
  Todo.parse now input = Some parsed ->
  exists t d c,
    parsed = <["title" := JStr t]> (<["done" := JBool d]> (<["createdAt" := JStr c]> ∅)) /\
    input !! "title" = Some (JStr t) /\
    (input !! "done" = Some (JBool d) \/ (input !! "done" = None /\ d = false)) /\
    (input !! "createdAt" = Some (JStr c) \/ (input !! "createdAt" = None /\ c = now)).
Proof.
  unfold Todo.parse.
  destruct (Todo.field "title" _ _ _) as [t|] eqn:Ht; [|discriminate].
  destruct (Todo.field "done" _ _ _) as [d|] eqn:Hd; [|discriminate].
  destruct (Todo.field "createdAt" _ _ _) as [c|] eqn:Hc; [|discriminate].
  intros [= <-].
  apply field_cases in Ht as [[Ht Tt] | [_ ?]]; [|discriminate].
  apply is_string_inv in Tt as [t' ->].
  apply field_cases in Hd as [[Hd Td] | [Hd [= <-]]];
    [apply is_boolean_inv in Td as [d' ->] | ];
  (apply field_cases in Hc as [[Hc Tc] | [Hc [= <-]]];
    [apply is_string_inv in Tc as [c' ->] | ]);
  do 3 eexists; (split; [reflexivity|]); auto.
Qed.

(** X21.  What the demo's schema accepts and what it returns.  It accepts an
    input exactly when [title] is a string and each of [done] and [createdAt]
    is missing or of its type.  The result then has the three fields and no
    other property: [title] as given, [done] as given or [false], [createdAt]
    as given or the time of the call; unknown properties are dropped. *)
Theorem todo_parse_spec (now : string) (input : Obj) :
  (is_Some (Todo.parse now input) <->
     (exists s, input !! "title" = Some (JStr s)) /\
     (input !! "done" = None \/ exists b, input !! "done" = Some (JBool b)) /\
     (input !! "createdAt" = None \/ exists s, input !! "createdAt" = Some (JStr s))) /\
  (forall parsed, Todo.parse now input = Some parsed ->
     parsed !! "title" = input !! "title" /\
     parsed !! "done" = Some (default (JBool false) (input !! "done")) /\
     parsed !! "createdAt" = Some (default (JStr now) (input !! "createdAt")) /\
     (forall k, k ∉ Todo.keys -> parsed !! k = None)).
Proof.
  split.
  - split.
    + intros [parsed H].
      destruct (todo_parse_inv now input parsed H) as (t & d & c & _ & Ht & Hd & Hc).
      split; [eauto|]. split.
      * destruct Hd as [Hd | [Hd _]]; eauto.
      * destruct Hc as [Hc | [Hc _]]; eauto.
    + intros ([t Ht] & Hd & Hc). unfold Todo.parse, Todo.field. rewrite Ht. simpl.
      destruct Hd as [-> | [d ->]]; destruct Hc as [-> | [c ->]]; simpl; eauto.
  - intros parsed H.
    destruct (todo_parse_inv now input parsed H) as (t & d & c & -> & Ht & Hd & Hc).
    rewrite !lookup_three. simpl. rewrite Ht.
    split; [reflexivity|]. split.
    { destruct Hd as [-> | [-> ->]]; reflexivity. }
    split.
    { destruct Hc as [-> | [-> ->]]; reflexivity. }
    intros k Hk. rewrite lookup_three. unfold Todo.keys in Hk.
    destruct (decide (k = "title")) as [-> | _]; [exfalso; apply Hk, list_elem_of_In; simpl; auto|].
    destruct (decide (k = "done")) as [-> | _]; [exfalso; apply Hk, list_elem_of_In; simpl; auto|].
    destruct (decide (k = "createdAt")) as [-> | _]; [exfalso; apply Hk, list_elem_of_In; simpl; auto|].
    reflexivity.
Qed.

(** X22.  A value that the demo's schema has returned is accepted again and
    comes back unchanged, at whatever time: validating is idempotent. *)
Theorem todo_parse_idempotent (now now' : string) (input parsed : Obj) :
  Todo.parse now input = Some parsed ->
  Todo.parse now' parsed = Some parsed.
Proof.
  intros H.
  destruct (todo_parse_inv now input parsed H) as (t & d & c & -> & _).
  unfold Todo.parse, Todo.field. rewrite !lookup_three. simpl. reflexivity.
Qed.

Lemma partial_field_lookup (key : string) (type : JsVal -> bool)
    (input out0 out : Obj) :
  Todo.partial_field key type input (Some out0) = Some out ->
  (forall v, input !! key = Some v -> type v = true) /\
  forall k, out !! k =
    if decide (k = key) then
      match input !! key with Some v => Some v | None => out0 !! key end
    else out0 !! k.
Proof.
  unfold Todo.partial_field. destruct (input !! key) as [v|] eqn:E.
  - destruct (type v) eqn:T; [|discriminate]. intros [= <-].
    split; [intros ? [= <-]; exact T|].
    intros k. case_decide; subst; simplify_map_eq; reflexivity.
  - intros [= <-]. split; [discriminate|].
    intros k. case_decide; subst; reflexivity.
Qed.

Lemma todo_partial_parse_inv (input parsed : Obj) :
  Todo.partial_parse input = Some parsed ->
  (forall v, input !! "title" = Some v -> Todo.is_string v = true) /\
  (forall v, input !! "done" = Some v -> Todo.is_boolean v = true) /\
  (forall v, input !! "createdAt" = Some v -> Todo.is_string v = true) /\
  forall k, parsed !! k = if bool_decide (k ∈ Todo.keys) then input !! k else None.
Proof.
  unfold Todo.partial_parse. intros H.
  destruct (Todo.partial_field "done" _ _ _) as [o2|] eqn:H2; [|discriminate].
  destruct (Todo.partial_field "createdAt" _ _ _) as [o3|] eqn:H3; [|discriminate].
  apply partial_field_lookup in H as [T1 L1].
  apply partial_field_lookup in H2 as [T2 L2].
  apply partial_field_lookup in H3 as [T3 L3].
  repeat split; auto.
  intros k. rewrite L1. unfold Todo.keys.
  case_decide as E1; [subst k|].
  { rewrite bool_decide_eq_true_2 by (apply list_elem_of_In; simpl; auto).
    destruct (input !! "title"); [reflexivity|].
    rewrite L2. simpl. rewrite L3. simpl. reflexivity. }
  rewrite L2. case_decide as E2; [subst k|].
  { rewrite bool_decide_eq_true_2 by (apply list_elem_of_In; simpl; auto).
    destruct (input !! "done"); [reflexivity|].
    rewrite L3. simpl. reflexivity. }
  rewrite L3. case_decide as E3; [subst k|].
  { rewrite bool_decide_eq_true_2 by (apply list_elem_of_In; simpl; auto).
    destruct (input !! "createdAt"); reflexivity. }
  rewrite bool_decide_eq_false_2; [reflexivity|].
  intros H. apply list_elem_of_In in H. simpl in H. intuition congruence.
Qed.

Lemma rt_partial_field_inv (v : ZodVersion) (key : string) (type : JsVal -> bool)
    (default : option JsVal) (input out0 out : RtObj) :
  TodoRt.partial_field v key type default input (Some out0) = Some out ->
  TodoRt.passes type (input !! key) /\
  forall k, out !! k =
    if decide (k = key) then
      match input !! key with
      | Some (RJson x) => Some (RJson x)
      | Some _ => from_option Some (out0 !! key) (TodoRt.absent v default true)
      | None => from_option Some (out0 !! key) (TodoRt.absent v default false)
      end
    else out0 !! k.
Proof.
  unfold TodoRt.partial_field, TodoRt.passes.
  destruct (input !! key) as [[x | | iso | ]|] eqn:E; try discriminate.
  - destruct (type x) eqn:T; [|discriminate]. intros [= <-].
    split; [reflexivity|]. intros k.
    destruct (decide (k = key)) as [-> | Hk];
      [apply lookup_insert_eq | by apply lookup_insert_ne].
  - intros [= <-]. split; [exact I|]. intros k. unfold TodoRt.put.
    destruct (TodoRt.absent v default true) as [y|]; simpl;
      destruct (decide (k = key)) as [-> | Hk]; try reflexivity;
      [apply lookup_insert_eq | by apply lookup_insert_ne].
  - intros [= <-]. split; [exact I|]. intros k. unfold TodoRt.put.
    destruct (TodoRt.absent v default false) as [y|]; simpl;
      destruct (decide (k = key)) as [-> | Hk]; try reflexivity;
      [apply lookup_insert_eq | by apply lookup_insert_ne].
Qed.

Lemma rt_partial_field_accepts (v : ZodVersion) (key : string) (type : JsVal -> bool)
    (default : option JsVal) (input out0 : RtObj) :
  TodoRt.passes type (input !! key) ->
  is_Some (TodoRt.partial_field v key type default input (Some out0)).
Proof.
  unfold TodoRt.partial_field, TodoRt.passes.
  destruct (input !! key) as [[x | | iso | ]|]; try tauto; eauto.
  intros ->. eauto.
Qed.

Lemma todo_rt_partial_parse_inv (v : ZodVersion) (now : string) (input parsed : RtObj) :
  TodoRt.partial_parse v now input = Some parsed ->
  TodoRt.passes Todo.is_string (input !! "title") /\
  TodoRt.passes Todo.is_boolean (input !! "done") /\
  TodoRt.passes Todo.is_string (input !! "createdAt") /\
  (forall k, k ∉ Todo.keys -> parsed !! k = None) /\
  (forall k j, k ∈ Todo.keys -> input !! k = Some (RJson j) ->
     parsed !! k = Some (RJson j)) /\
  (forall k, k ∈ Todo.keys ->
     input !! k = None \/ input !! k = Some RUndefined ->
     parsed !! k =
       match v, TodoRt.default_of now k with
       | zod4, Some d => Some (RJson d)
       | _, _ => input !! k
       end).
Proof.
  unfold TodoRt.partial_parse. intros H.
  destruct (TodoRt.partial_field v "done" _ _ _ _) as [o2|] eqn:H2; [|discriminate].
  destruct (TodoRt.partial_field v "createdAt" _ _ _ _) as [o3|] eqn:H3; [|discriminate].
  apply rt_partial_field_inv in H as [T1 L1].
  apply rt_partial_field_inv in H2 as [T2 L2].
  apply rt_partial_field_inv in H3 as [T3 L3].
  split; [exact T1|]. split; [exact T2|]. split; [exact T3|].
  assert (Hkeys : forall k, k ∈ Todo.keys <->
                            k = "title" \/ k = "done" \/ k = "createdAt").
  { intros k. unfold Todo.keys. rewrite list_elem_of_In. simpl. intuition. }
  assert (E3 : forall k, o3 !! k =
            if decide (k = "createdAt") then
              match input !! "createdAt" with
              | Some (RJson x) => Some (RJson x)
              | Some _ => TodoRt.absent v (Some (JStr now)) true
              | None => TodoRt.absent v (Some (JStr now)) false
              end
            else None).
  { intros k. rewrite L3. destruct (decide (k = "createdAt")); [|apply lookup_empty].
    destruct (input !! "createdAt") as [[x | | iso | ]|]; destruct v; simpl;
      rewrite ?lookup_empty; reflexivity. }
  split; [|split].
  - intros k Hk. rewrite Hkeys in Hk.
    rewrite L1. destruct (decide (k = "title")); [tauto|].
    rewrite L2. destruct (decide (k = "done")); [tauto|].
    rewrite E3. destruct (decide (k = "createdAt")); [tauto | reflexivity].
  - intros k j Hk Hj. rewrite Hkeys in Hk.
    rewrite L1. destruct (decide (k = "title")) as [-> | N1]; [rewrite Hj; reflexivity|].
    rewrite L2. destruct (decide (k = "done")) as [-> | N2]; [rewrite Hj; reflexivity|].
    rewrite E3. destruct (decide (k = "createdAt")) as [-> | N3]; [|tauto].
    rewrite Hj. reflexivity.
  - assert (O3d : o3 !! "done" = None).
    { rewrite E3. destruct (decide ("done" = "createdAt")); [discriminate | reflexivity]. }
    assert (O3t : o3 !! "title" = None).
    { rewrite E3. destruct (decide ("title" = "createdAt")); [discriminate | reflexivity]. }
    assert (O2t : o2 !! "title" = None).
    { rewrite L2. destruct (decide ("title" = "done")); [discriminate | exact O3t]. }
    intros k Hk Hmiss. rewrite Hkeys in Hk.
    rewrite L1. destruct (decide (k = "title")) as [-> | N1].
    { rewrite O2t. destruct Hmiss as [-> | ->]; destruct v; reflexivity. }
    rewrite L2. destruct (decide (k = "done")) as [-> | N2].
    { rewrite O3d. destruct Hmiss as [-> | ->]; destruct v; reflexivity. }
    rewrite E3. destruct (decide (k = "createdAt")) as [-> | N3]; [|tauto].
    destruct Hmiss as [-> | ->]; destruct v; reflexivity.
Qed.

(** X23.  The partial form of the demo's schema, which [update] uses, in
    both versions of the library.  It accepts an object exactly when each of
    the three fields is missing, [undefined], or JSON data of its type.  Its
    result has no property besides the three fields ([id] is dropped); a
    field that holds JSON data comes back as it is; a field that is missing
    or [undefined] stays so, except that under version 4 a field with a
    default ([done], [createdAt]) takes its default. *)
Theorem todo_partial_parse_spec (v : ZodVersion) (now : string) (input : RtObj) :
  (is_Some (TodoRt.partial_parse v now input) <->
     TodoRt.passes Todo.is_string (input !! "title") /\
     TodoRt.passes Todo.is_boolean (input !! "done") /\
     TodoRt.passes Todo.is_string (input !! "createdAt")) /\
  (forall parsed, TodoRt.partial_parse v now input = Some parsed ->
     (forall k, k ∉ Todo.keys -> parsed !! k = None) /\
     (forall k j, k ∈ Todo.keys -> input !! k = Some (RJson j) ->
        parsed !! k = Some (RJson j)) /\
     (forall k, k ∈ Todo.keys ->
        input !! k = None \/ input !! k = Some RUndefined ->
        parsed !! k =
          match v, TodoRt.default_of now k with
          | zod4, Some d => Some (RJson d)
          | _, _ => input !! k
          end)).
Proof.
  split.
  - split.
    + intros [parsed H]. apply todo_rt_partial_parse_inv in H. tauto.
    + intros (T1 & T2 & T3). unfold TodoRt.partial_parse.
      destruct (rt_partial_field_accepts v "createdAt" Todo.is_string
                  (Some (JStr now)) input ∅ T3) as [o3 ->].
      destruct (rt_partial_field_accepts v "done" Todo.is_boolean
                  (Some (JBool false)) input o3 T2) as [o2 ->].
      apply rt_partial_field_accepts, T1.
  - intros parsed H. apply todo_rt_partial_parse_inv in H. tauto.
Qed.

(** * Laws of the demo's store *)

Lemma spread_lookup (a b : Obj) (k : string) :
  spread a b !! k = match b !! k with Some v => Some v | None => a !! k end.
Proof.
  unfold spread. rewrite lookup_union.
  destruct (b !! k), (a !! k); reflexivity.
Qed.

Lemma todo_strips_id (now : string) : strips_id (Todo.TodoSchema now).
Proof.
  intros x parsed H. simpl in H.
  apply todo_partial_parse_inv in H as (_ & _ & _ & L).
  rewrite L. reflexivity.
Qed.

Lemma stored_find (w : World) (id : string) (item : Obj) :
  fst (JsonFileStore.getById id w) = Ok (Some item) ->
  exists data, stored (file w) = Ok data /\ List.find (id_is id) data = Some item.
Proof.
  read_only. simpl.
  destruct (stored (file w)) as [data | e | ]; try discriminate.
  intros [= H]. eauto.
Qed.

(** *** [update] and [create] on values of the program *)

Lemma rt_spread_lookup (a b : RtObj) (k : string) :
  Runtime.spread a b !! k = match b !! k with Some v => Some v | None => a !! k end.
Proof.
  unfold Runtime.spread. rewrite lookup_union.
  destruct (b !! k), (a !! k); reflexivity.
Qed.

Lemma of_json_lookup (o : Obj) (k : string) :
  Runtime.of_json o !! k = RJson <$> o !! k.
Proof. unfold Runtime.of_json. apply lookup_fmap. Qed.

Lemma to_json_lookup (o : RtObj) (k : string) :
  Runtime.to_json o !! k = o !! k ≫= Runtime.to_json_val.
Proof. unfold Runtime.to_json. apply lookup_omap. Qed.

Lemma map_to_json_insert (data : list Obj) (i : nat) (x : RtObj) :
  map Runtime.to_json (<[i := x]> (map Runtime.of_json data)) =
  <[i := Runtime.to_json x]> data.
Proof.
  revert i. induction data as [|y data IH]; intros [|i]; simpl; try reflexivity.
  - rewrite map_to_json_of_json. reflexivity.
  - rewrite to_json_of_json, IH. reflexivity.
Qed.

Lemma findIndex_lookup_find {A : Type} (f : A -> bool) (l : list A) (i : nat) (x : A) :
  Js.findIndex f l = Some i -> l !! i = Some x -> List.find f l = Some x.
Proof.
  revert i. induction l as [|y l IH]; simpl; [discriminate|].
  intros i. destruct (f y).
  - intros [= <-]. simpl. congruence.
  - destruct (Js.findIndex f l) as [i'|]; [|discriminate].
    intros [= <-]. simpl. apply IH. reflexivity.
Qed.

Lemma rt_update_cases {I : Type} (schema : Runtime.Schema I)
    (id : string) (updates : RtObj) (w w' : World) (r : RtObj) (data : list Obj) :
  stored (file w) = Ok data ->
  Runtime.update schema id updates w = (Ok (Some r), w') ->
  exists index item parsed,
    data !! index = Some item /\
    Js.findIndex (id_is id) data = Some index /\
    List.find (id_is id) data = Some item /\
    Runtime.partial_parse schema (Runtime.spread (Runtime.of_json item) updates) =
      Some parsed /\
    r = Runtime.spread (Runtime.of_json item) parsed /\
    file w' = Holds (JsonArray (<[index := Runtime.to_json r]> data)).
Proof.
  intros Hs Hu. unfold Runtime.update in Hu. unfold bind at 1 in Hu.
  rewrite rt_readFile_stored, Hs in Hu. cbn [outcome_map] in Hu.
  rewrite findIndex_of_json in Hu.
  destruct (Js.findIndex (id_is id) data) as [index|] eqn:Hi; [|discriminate].
  destruct (findIndex_first _ _ _ Hi) as (item & Hl & Hid & _).
  assert (Hn : nth index (map Runtime.of_json data) ∅ = Runtime.of_json item).
  { apply nth_lookup_default.
    change (map Runtime.of_json data) with (Runtime.of_json <$> data).
    rewrite list_lookup_fmap, Hl. reflexivity. }
  cbv zeta in Hu. rewrite Hn in Hu.
  destruct (Runtime.partial_parse schema _) as [parsed|] eqn:Hp; [|discriminate].
  exists index, item, parsed.
  unfold bind, Runtime.writeFile in Hu. rewrite map_to_json_insert in Hu.
  pose proof (writeFile_file
    (<[index := Runtime.to_json (Runtime.spread (Runtime.of_json item) parsed)]> data)
    (add_log EvRead w)) as HW.
  destruct (JsonFileStore.writeFile _ _) as [[[] | e | ] w1]; try discriminate.
  assert (Hn' : nth index (<[index := Runtime.spread (Runtime.of_json item) parsed]>
                             (map Runtime.of_json data)) ∅ =
                Runtime.spread (Runtime.of_json item) parsed).
  { apply nth_lookup_default. apply list_lookup_insert_eq.
    rewrite length_map. eapply lookup_lt_Some; eauto. }
  rewrite Hn' in Hu. injection Hu as <- <-.
  repeat split; auto.
  eapply findIndex_lookup_find; eauto.
Qed.

Lemma todo_keys_elem (k : string) :
  k ∈ Todo.keys <-> k = "title" \/ k = "done" \/ k = "createdAt".
Proof. unfold Todo.keys. rewrite list_elem_of_In. simpl. intuition. Qed.

Lemma rt_field_type (key : string) (type : JsVal -> bool) (default : option JsVal)
    (input : RtObj) (x : JsVal) :
  TodoRt.field key type default input = Some x -> type x = true \/ default = Some x.
Proof.
  unfold TodoRt.field.
  destruct (input !! key) as [[j | | iso | ]|]; try discriminate; auto.
  destruct (type j) eqn:T; [|discriminate]. intros [= <-]. auto.
Qed.

Lemma todo_rt_parse_inv (now : string) (input parsed : RtObj) :
  TodoRt.parse now input = Some parsed ->
  exists t d c,
    parsed = <["title" := RJson (JStr t)]> (<["done" := RJson (JBool d)]>
               (<["createdAt" := RJson (JStr c)]> ∅)).
Proof.
  unfold TodoRt.parse.
  destruct (TodoRt.field "title" _ _ _) as [t|] eqn:Ht; [|discriminate].
  destruct (TodoRt.field "done" _ _ _) as [d|] eqn:Hd; [|discriminate].
  destruct (TodoRt.field "createdAt" _ _ _) as [c|] eqn:Hc; [|discriminate].
  intros [= <-].
  apply rt_field_type in Ht as [Tt | ?]; [|discriminate].
  apply is_string_inv in Tt as [t' ->].
  assert (exists d', d = JBool d') as [d' ->].
  { apply rt_field_type in Hd as [Td | [= <-]]; [by apply is_boolean_inv | eauto]. }
  assert (exists c', c = JStr c') as [c' ->].
  { apply rt_field_type in Hc as [Tc | [= <-]]; [by apply is_string_inv | eauto]. }
  eauto.
Qed.

(** What [update] with the demo's schema returns and stores, field by
    field. *)
Lemma todo_rt_update_cases (v : ZodVersion) (now id : string) (updates : RtObj)
    (w w' : World) (r : RtObj) (data : list Obj) :
  stored (file w) = Ok data ->
  Runtime.update (TodoRt.schema v now) id updates w = (Ok (Some r), w') ->
  exists index item,
    data !! index = Some item /\
    Js.findIndex (id_is id) data = Some index /\
    List.find (id_is id) data = Some item /\
    file w' = Holds (JsonArray (<[index := Runtime.to_json r]> data)) /\
    TodoRt.passes Todo.is_string
      (Runtime.spread (Runtime.of_json item) updates !! "title") /\
    TodoRt.passes Todo.is_boolean
      (Runtime.spread (Runtime.of_json item) updates !! "done") /\
    TodoRt.passes Todo.is_string
      (Runtime.spread (Runtime.of_json item) updates !! "createdAt") /\
    forall k, r !! k =
      if bool_decide (k ∈ Todo.keys) then
        match updates !! k with
        | Some RUndefined =>
            Some (match v, TodoRt.default_of now k with
                  | zod4, Some d => RJson d
                  | _, _ => RUndefined
                  end)
        | Some x => Some x
        | None =>
            match item !! k with
            | Some j => Some (RJson j)
            | None =>
                match v, TodoRt.default_of now k with
                | zod4, Some d => Some (RJson d)
                | _, _ => None
                end
            end
        end
      else Runtime.of_json item !! k.
Proof.
  intros Hs Hu.
  destruct (rt_update_cases _ id updates w w' r data Hs Hu)
    as (index & item & parsed & Hl & Hi & Hfind & Hp & -> & Hf).
  exists index, item. simpl in Hp.
  apply todo_rt_partial_parse_inv in Hp as (P1 & P2 & P3 & Lout & Ljson & Lmiss).
  repeat (split; [assumption|]).
  intros k. rewrite rt_spread_lookup.
  destruct (bool_decide (k ∈ Todo.keys)) eqn:Hk.
  - apply bool_decide_eq_true in Hk.
    assert (Pk : exists type,
              TodoRt.passes type (Runtime.spread (Runtime.of_json item) updates !! k)).
    { apply todo_keys_elem in Hk as [-> | [-> | ->]]; eauto. }
    destruct Pk as [type Pk].
    pose proof (Ljson k) as Lj. pose proof (Lmiss k Hk) as Lm.
    rewrite rt_spread_lookup, of_json_lookup in Lj, Lm, Pk.
    destruct (updates !! k) as [[j | | iso | ]|] eqn:Eu.
    + rewrite (Lj j Hk eq_refl). reflexivity.
    + rewrite Lm by auto. destruct v, (TodoRt.default_of now k); reflexivity.
    + destruct Pk.
    + destruct Pk.
    + destruct (item !! k) as [j|] eqn:Ei; simpl in *.
      * rewrite (Lj j Hk eq_refl). reflexivity.
      * rewrite Lm by auto. rewrite of_json_lookup, Ei.
        destruct v, (TodoRt.default_of now k); reflexivity.
  - apply bool_decide_eq_false in Hk. rewrite (Lout k Hk). reflexivity.
Qed.

Lemma rt_update_none {I : Type} (schema : Runtime.Schema I)
    (id : string) (updates : RtObj) (w w' : World) :
  Runtime.update schema id updates w = (Ok None, w') -> file w' = file w.
Proof.
  unfold Runtime.update. unfold bind at 1. rewrite rt_readFile_stored.
  destruct (stored (file w)) as [data | e | ]; cbn [outcome_map]; try discriminate.
  destruct (Js.findIndex _ _) as [index|]; [|intros [= <-]; reflexivity].
  cbv zeta. destruct (Runtime.partial_parse schema _); [|discriminate].
  unfold bind. destruct (Runtime.writeFile _ _) as [[[] | e | ] w1]; discriminate.
Qed.

Lemma rt_create_cases {I : Type} (schema : Runtime.Schema I)
    (uuid : string) (input : I) (w w' : World) (r : RtObj) (data : list Obj) :
  stored (file w) = Ok data ->
  Runtime.create schema uuid input w = (Ok r, w') ->
  exists parsed, Runtime.parse schema input = Some parsed /\
    r = <["id" := RJson (JStr uuid)]> parsed /\
    file w' = Holds (JsonArray (data ++ [Runtime.to_json r])).
Proof.
  intros Hs Hc.
  destruct (Runtime.parse schema input) as [parsed|] eqn:Hp;
    [|unfold Runtime.create in Hc; rewrite Hp in Hc; discriminate].
  rewrite (rt_create_unfold schema uuid input parsed w data Hp Hs) in Hc.
  unfold bind in Hc.
  pose proof (writeFile_file
    (data ++ [Runtime.to_json (<["id" := RJson (JStr uuid)]> parsed)])
    (add_log EvRead w)) as HW.
  destruct (JsonFileStore.writeFile _ _) as [[[] | e | ] w1]; try discriminate.
  injection Hc as <- <-. eauto.
Qed.

Lemma to_json_well_formed (r : RtObj) (t c i : string) (d : bool) :
  r !! "title" = Some (RJson (JStr t)) ->
  r !! "done" = Some (RJson (JBool d)) ->
  r !! "createdAt" = Some (RJson (JStr c)) ->
  r !! "id" = Some (RJson (JStr i)) ->
  Todo.well_formed (Runtime.to_json r).
Proof.
  intros H1 H2 H3 H4. unfold Todo.well_formed.
  rewrite !to_json_lookup, H1, H2, H3, H4. simpl. eauto 10.
Qed.

(** X24.  With the demo's schema [update] merges field by field, in both
    versions of the library.  Let [id] name a stored record and let
    [update(id, updates)] return a record.  Under each of the three fields
    the returned record has: the value from the updates when they hold one;
    the stored value when the updates do not name the field; and where the
    updates set the field to [undefined], or neither they nor the stored
    record have it, the field's default under version 4 if it has one, and
    else [undefined], respectively nothing.  Every other property of the
    stored record is kept and every other property of the updates is
    ignored, so the record keeps its [id].  What is stored under the id
    afterwards is the JSON image of the returned record: a field that came
    back [undefined] is gone from the file. *)
Theorem todo_update_merges (v : ZodVersion) (now id : string) (updates : RtObj)
    (item : Obj) (r : RtObj) (w w' : World) :
  fst (JsonFileStore.getById id w) = Ok (Some item) ->
  Runtime.update (TodoRt.schema v now) id updates w = (Ok (Some r), w') ->
  (forall k, r !! k =
     if bool_decide (k ∈ Todo.keys) then
       match updates !! k with
       | Some RUndefined =>
           Some (match v, TodoRt.default_of now k with
                 | zod4, Some d => RJson d
                 | _, _ => RUndefined
                 end)
       | Some x => Some x
       | None =>
           match item !! k with
           | Some j => Some (RJson j)
           | None =>
               match v, TodoRt.default_of now k with
               | zod4, Some d => Some (RJson d)
               | _, _ => None
               end
           end
       end
     else Runtime.of_json item !! k) /\
  r !! "id" = Some (RJson (JStr id)) /\
  fst (JsonFileStore.getById id w') = Ok (Some (Runtime.to_json r)) /\
  (forall k, r !! k = Some RUndefined -> Runtime.to_json r !! k = None).
Proof.
  intros Hg Hu. destruct (stored_find w id item Hg) as (data & Hs & Hfind).
  destruct (todo_rt_update_cases v now id updates w w' r data Hs Hu)
    as (index & item' & Hl & Hi & Hfind' & Hf & _ & _ & _ & Hk).
  rewrite Hfind in Hfind'. injection Hfind' as <-.
  assert (Hid : id_is id item = true) by (eapply find_some; eauto).
  assert (Hrid : r !! "id" = Some (RJson (JStr id))).
  { rewrite Hk. simpl. rewrite of_json_lookup.
    unfold id_is in Hid. apply bool_decide_eq_true in Hid. rewrite Hid. reflexivity. }
  split; [exact Hk|]. split; [exact Hrid|]. split.
  - read_only. rewrite Hf. simpl. f_equal.
    apply find_insert_at_findIndex; [exact Hi|].
    unfold id_is. apply bool_decide_eq_true_2.
    rewrite to_json_lookup, Hrid. reflexivity.
  - intros k Hu'. rewrite to_json_lookup, Hu'. reflexivity.
Qed.

(** X25.  When the demo's store keeps its records well formed, in both
    versions of the library.  Let every stored record have a string [title],
    a boolean [done], a string [createdAt] and a string [id].  The same holds
    of the collection left by a [create] or a [delete] that returns, and by
    an [update] that returns when the updates set none of the three fields to
    [undefined].  It fails for an [update] that sets a field to [undefined]
    where the partial schema lets that through ([title] in both versions,
    every field under version 3): the call returns the record with the field
    [undefined], and the record stored under the id has lost the field. *)
Theorem todo_store_well_formed (v : ZodVersion) (now : string) (w : World)
    (data : list Obj) :
  fst (JsonFileStore.getAll w) = Ok data ->
  Forall Todo.well_formed data ->
  (forall uuid input r w',
     Runtime.create (TodoRt.schema v now) uuid input w = (Ok r, w') ->
     exists data', fst (JsonFileStore.getAll w') = Ok data' /\
                   Forall Todo.well_formed data') /\
  (forall id updates r w',
     TodoRt.sets_no_undefined updates ->
     Runtime.update (TodoRt.schema v now) id updates w = (Ok r, w') ->
     exists data', fst (JsonFileStore.getAll w') = Ok data' /\
                   Forall Todo.well_formed data') /\
  (forall id b w',
     JsonFileStore.delete id w = (Ok b, w') ->
     exists data', fst (JsonFileStore.getAll w') = Ok data' /\
                   Forall Todo.well_formed data') /\
  (forall id updates r w' k,
     k ∈ Todo.keys -> updates !! k = Some RUndefined ->
     v = zod3 \/ k = "title" ->
     Runtime.update (TodoRt.schema v now) id updates w = (Ok (Some r), w') ->
     r !! k = Some RUndefined /\
     exists s, fst (JsonFileStore.getById id w') = Ok (Some s) /\
               s !! k = None /\ ~ Todo.well_formed s).
Proof.
  read_only. simpl. intros Hs Hwf. split; [|split; [|split]].
  - intros uuid input r w' Hc.
    destruct (rt_create_cases _ uuid input w w' r data Hs Hc) as (parsed & Hp & -> & Hf).
    eexists. read_only. rewrite Hf. simpl. split; [reflexivity|].
    apply Forall_app. split; [exact Hwf|].
    apply Forall_singleton. simpl in Hp.
    destruct (todo_rt_parse_inv now input parsed Hp) as (t & d & c & ->).
    apply (to_json_well_formed _ t c uuid d); reflexivity.
  - intros id updates [r|] w' Hno Hu.
    + destruct (todo_rt_update_cases v now id updates w w' r data Hs Hu)
        as (index & item & Hl & _ & Hfind & Hf & P1 & P2 & P3 & Hk).
      eexists. read_only. rewrite Hf. simpl. split; [reflexivity|].
      apply Forall_insert; [exact Hwf|].
      assert (Hitem : Todo.well_formed item).
      { rewrite Forall_forall in Hwf. apply Hwf. eapply list_elem_of_lookup_2. exact Hl. }
      destruct Hitem as ([t Ht] & [d Hd] & [c Hc] & [i Hid]).
      unfold TodoRt.sets_no_undefined in Hno. rewrite Forall_forall in Hno.
      assert (N1 := Hno "title" ltac:(apply todo_keys_elem; auto)).
      assert (N2 := Hno "done" ltac:(apply todo_keys_elem; auto)).
      assert (N3 := Hno "createdAt" ltac:(apply todo_keys_elem; auto)).
      rewrite rt_spread_lookup, of_json_lookup in P1, P2, P3.
      assert (R1 : exists t', r !! "title" = Some (RJson (JStr t'))).
      { rewrite Hk. simpl. rewrite Ht in *.
        destruct (updates !! "title") as [[j | | iso | ]|]; simpl in *;
          try tauto; eauto.
        apply is_string_inv in P1 as [t' ->]. eauto. }
      assert (R2 : exists d', r !! "done" = Some (RJson (JBool d'))).
      { rewrite Hk. simpl. rewrite Hd in *.
        destruct (updates !! "done") as [[j | | iso | ]|]; simpl in *;
          try tauto; eauto.
        apply is_boolean_inv in P2 as [d' ->]. eauto. }
      assert (R3 : exists c', r !! "createdAt" = Some (RJson (JStr c'))).
      { rewrite Hk. simpl. rewrite Hc in *.
        destruct (updates !! "createdAt") as [[j | | iso | ]|]; simpl in *;
          try tauto; eauto.
        apply is_string_inv in P3 as [c' ->]. eauto. }
      assert (R4 : r !! "id" = Some (RJson (JStr i))).
      { rewrite Hk. simpl. rewrite of_json_lookup, Hid. reflexivity. }
      destruct R1 as [t' R1], R2 as [d' R2], R3 as [c' R3].
      eapply to_json_well_formed; eassumption.
    + apply rt_update_none in Hu. exists data. read_only. rewrite Hu. simpl.
      rewrite Hs. auto.
  - intros id b w' Hd.
    destruct (delete_cases id w b w' Hd) as (data0 & Hs0 & Hc).
    rewrite Hs in Hs0. injection Hs0 as <-.
    destruct Hc as [(_ & _ & Hf) | (_ & Hf)]; read_only; rewrite Hf; simpl.
    + rewrite Hs. eauto.
    + eexists. split; [reflexivity|].
      rewrite Forall_forall in *. intros x Hx. apply Hwf.
      apply list_elem_of_In in Hx. apply List.filter_In in Hx as [Hx _].
      by apply list_elem_of_In.
  - intros id updates r w' k Hin Hund Hv Hu.
    destruct (todo_rt_update_cases v now id updates w w' r data Hs Hu)
      as (index & item & Hl & Hi & Hfind & Hf & _ & _ & _ & Hk).
    assert (Hr : r !! k = Some RUndefined).
    { rewrite Hk, (bool_decide_eq_true_2 _ Hin), Hund.
      destruct Hv as [-> | ->]; [reflexivity | destruct v; reflexivity]. }
    split; [exact Hr|].
    assert (Hid : id_is id item = true) by (eapply find_some; eauto).
    assert (Hrid : r !! "id" = Some (RJson (JStr id))).
    { rewrite Hk. simpl. rewrite of_json_lookup.
      unfold id_is in Hid. apply bool_decide_eq_true in Hid. rewrite Hid. reflexivity. }
    assert (Hnone : Runtime.to_json r !! k = None).
    { rewrite to_json_lookup, Hr. reflexivity. }
    exists (Runtime.to_json r). split; [|split; [exact Hnone|]].
    + read_only. rewrite Hf. simpl. f_equal.
      apply find_insert_at_findIndex; [exact Hi|].
      unfold id_is. apply bool_decide_eq_true_2.
      rewrite to_json_lookup, Hrid. reflexivity.
    + intros ([t Ht] & [d Hd] & [c Hc] & _).
      apply todo_keys_elem in Hin as [-> | [-> | ->]]; congruence.
Qed.

Lemma well_formed_satisfies (now : string) (r : Obj) :
  Todo.well_formed r -> satisfies (Todo.TodoSchema now) r.
Proof.
  intros ([t Ht] & [d Hd] & [c Hc] & _). apply todo_satisfies.
  unfold Todo.partial_parse, Todo.partial_field. rewrite Hc, Hd, Ht. simpl. eauto.
Qed.

Lemma well_formed_create (now uuid : string) (input parsed : Obj) :
  Todo.parse now input = Some parsed ->
  Todo.well_formed (<["id" := JStr uuid]> parsed).
Proof.
  intros H. destruct (todo_parse_inv now input parsed H) as (t & d & c & -> & _).
  unfold Todo.well_formed.
  rewrite lookup_insert_eq, !lookup_insert_ne, !lookup_three by discriminate.
  simpl. eauto 10.
Qed.

(** X26.  A well-formed record satisfies the demo's schema in the sense the
    empty update needs: the partial schema accepts it and hands back fields
    of the record.  So does every record that [create] returns. *)
Theorem todo_records_satisfy (now : string) (r : Obj) :
  (Todo.well_formed r -> satisfies (Todo.TodoSchema now) r) /\
  (forall now' uuid input w w',
     JsonFileStore.create (Todo.TodoSchema now') uuid input w = (Ok r, w') ->
     Todo.well_formed r /\ satisfies (Todo.TodoSchema now) r).
Proof.
  split; [apply well_formed_satisfies|].
  intros now' uuid input w w' Hc.
  assert (Hwf : Todo.well_formed r).
  { unfold JsonFileStore.create in Hc. simpl in Hc.
    destruct (Todo.parse now' input) as [parsed|] eqn:Hp; [|discriminate].
    unfold bind in Hc. rewrite readFile_stored in Hc.
    destruct (stored (file w)); try discriminate.
    destruct (JsonFileStore.writeFile _ _) as [[[] | e | ] w1]; try discriminate.
    injection Hc as <- _. rewrite spread_id. eapply well_formed_create. exact Hp. }
  split; [exact Hwf | by apply well_formed_satisfies].
Qed.

(** ** On JSON data the two levels coincide *)

Lemma rt_spread_of_json (a b : Obj) :
  Runtime.spread (Runtime.of_json a) (Runtime.of_json b) = Runtime.of_json (spread a b).
Proof. unfold Runtime.spread, spread, Runtime.of_json. symmetry. apply map_fmap_union. Qed.

Lemma of_json_insert (k : string) (x : JsVal) (o : Obj) :
  Runtime.of_json (<[k := x]> o) = <[k := RJson x]> (Runtime.of_json o).
Proof. unfold Runtime.of_json. apply fmap_insert. Qed.

Lemma of_json_empty : Runtime.of_json ∅ = ∅.
Proof. unfold Runtime.of_json. apply fmap_empty. Qed.

Lemma map_to_json_app (data : list Obj) (x : Obj) :
  map Runtime.to_json (map Runtime.of_json data ++ [Runtime.of_json x]) = data ++ [x].
Proof. rewrite map_app, map_to_json_of_json. simpl. rewrite to_json_of_json. reflexivity. Qed.

(** When the validator returns JSON data, [create] on values of the program
    is [create] on JSON data. *)
Lemma rt_create_agrees {I J : Type} (inj : J -> I) (S : Runtime.Schema I)
    (s : ZodSchema J) (uuid : string) (input : J) (w : World) :
  agrees inj S s ->
  Runtime.create S uuid (inj input) w =
  (outcome_map Runtime.of_json (fst (JsonFileStore.create s uuid input w)),
   snd (JsonFileStore.create s uuid input w)).
Proof.
  intros [Hp _]. unfold Runtime.create, JsonFileStore.create. rewrite Hp.
  destruct (parse s input) as [parsed|]; [|reflexivity]. simpl.
  unfold bind. rewrite rt_readFile_stored, readFile_stored.
  destruct (stored (file w)) as [data | e | ]; try reflexivity. simpl.
  rewrite rt_spread_id, spread_id, <- of_json_insert.
  unfold Runtime.writeFile. rewrite map_to_json_app.
  destruct (JsonFileStore.writeFile _ _) as [[[] | e | ] w1]; reflexivity.
Qed.

(** The same for [update], when the updates are JSON data. *)
Lemma rt_update_agrees {I J : Type} (inj : J -> I) (S : Runtime.Schema I)
    (s : ZodSchema J) (id : string) (updates : Obj) (w : World) :
  agrees inj S s ->
  Runtime.update S id (Runtime.of_json updates) w =
  (outcome_map (fmap Runtime.of_json) (fst (JsonFileStore.update s id updates w)),
   snd (JsonFileStore.update s id updates w)).
Proof.
  intros [_ Hp]. unfold Runtime.update. unfold bind at 1.
  rewrite rt_readFile_stored.
  destruct (stored (file w)) as [data | e | ] eqn:Hs; cbn [outcome_map].
  - rewrite (update_unfold s id updates w data Hs), findIndex_of_json.
    destruct (Js.findIndex (id_is id) data) as [index|] eqn:Hi; [|reflexivity].
    destruct (findIndex_first _ _ _ Hi) as (item & Hl & _ & _).
    assert (Hn : nth index (map Runtime.of_json data) ∅ = Runtime.of_json item).
    { apply nth_lookup_default.
      change (map Runtime.of_json data) with (Runtime.of_json <$> data).
      rewrite list_lookup_fmap, Hl. reflexivity. }
    cbv zeta. rewrite Hn, (nth_lookup_default data index ∅ item Hl).
    rewrite rt_spread_of_json, Hp.
    destruct (partial_parse s (spread item updates)) as [parsed|]; [|reflexivity].
    simpl. rewrite rt_spread_of_json.
    assert (Hlt : (index < length data)%nat) by (eapply lookup_lt_Some; eauto).
    assert (Hn1 : nth index (<[index := Runtime.of_json (spread item parsed)]>
                               (map Runtime.of_json data)) ∅ =
                  Runtime.of_json (spread item parsed)).
    { apply nth_lookup_default, list_lookup_insert_eq. by rewrite length_map. }
    assert (Hn2 : nth index (<[index := spread item parsed]> data) ∅ =
                  spread item parsed).
    { by apply nth_lookup_default, list_lookup_insert_eq. }
    rewrite Hn1, Hn2. unfold bind, Runtime.writeFile.
    rewrite map_to_json_insert, to_json_of_json.
    destruct (JsonFileStore.writeFile _ _) as [[[] | e | ] w1]; reflexivity.
  - unfold JsonFileStore.update, bind. rewrite readFile_stored, Hs. reflexivity.
  - unfold JsonFileStore.update, bind. rewrite readFile_stored, Hs. reflexivity.
Qed.

Lemma rt_field_of_json (key : string) (type : JsVal -> bool) (default : option JsVal)
    (input : Obj) :
  TodoRt.field key type default (Runtime.of_json input) =
  Todo.field key type default input.
Proof.
  unfold TodoRt.field, Todo.field. rewrite of_json_lookup.
  destruct (input !! key); reflexivity.
Qed.

Lemma rt_partial_field_of_json (key : string) (type : JsVal -> bool)
    (default : option JsVal) (input : Obj) (acc : option Obj) :
  TodoRt.partial_field zod3 key type default (Runtime.of_json input)
    (Runtime.of_json <$> acc) =
  Runtime.of_json <$> Todo.partial_field key type input acc.
Proof.
  unfold TodoRt.partial_field, Todo.partial_field.
  destruct acc as [out|]; [|reflexivity]. simpl. rewrite of_json_lookup.
  destruct (input !! key) as [x|]; simpl.
  - destruct (type x); [|reflexivity]. simpl. rewrite of_json_insert. reflexivity.
  - destruct default; reflexivity.
Qed.

(** Under version 3 the demo's schema on values of the program is, on JSON
    data, the schema of the JSON level. *)
Lemma todo_rt_agrees (now : string) :
  agrees Runtime.of_json (TodoRt.schema zod3 now) (Todo.TodoSchema now).
Proof.
  split; simpl.
  - intros input. unfold TodoRt.parse, Todo.parse. rewrite !rt_field_of_json.
    destruct (Todo.field "title" _ _ _) as [t|]; [|reflexivity].
    destruct (Todo.field "done" _ _ _) as [d|]; [|reflexivity].
    destruct (Todo.field "createdAt" _ _ _) as [c|]; [|reflexivity].
    simpl. rewrite !of_json_insert, of_json_empty. reflexivity.
  - intros x. unfold TodoRt.partial_parse, Todo.partial_parse.
    rewrite <- (rt_partial_field_of_json "title" _ None).
    rewrite <- (rt_partial_field_of_json "done" _ (Some (JBool false))).
    rewrite <- (rt_partial_field_of_json "createdAt" _ (Some (JStr now))).
    simpl. rewrite of_json_empty. reflexivity.
Qed.

(** Setting [title] to [undefined]: [update] returns the record with the
    title [undefined], and the stored record has no title, in both
    versions. *)
Example update_undefined_title (v : ZodVersion) :
  fst (Runtime.update (TodoRt.later v) "id-a" TodoRt.untitle Todo.after_demo) =
    Ok (Some TodoRt.untitled_a) /\
  Todo.out_titles
    (fst (JsonFileStore.getAll
            (snd (Runtime.update (TodoRt.later v) "id-a" TodoRt.untitle
                    Todo.after_demo)))) =
    Some [None; Some (JStr "Task B"); Some (JStr "Task C")].
Proof. destruct v; split; vm_compute; reflexivity. Qed.

(** The empty update of a stored record that lacks the defaulted fields:
    version 3 leaves it as it is, version 4 fills the defaults in. *)
Example update_empty_versions :
  fst (Runtime.update (TodoRt.later zod3) "id-x" ∅ TodoRt.bare_world) =
    Ok (Some (Runtime.of_json TodoRt.bare)) /\
  fst (Runtime.update (TodoRt.later zod4) "id-x" ∅ TodoRt.bare_world) =
    Ok (Some (Runtime.of_json
                (Todo.stored_todo "x" false "2024-01-01T00:00:03.000Z" "id-x"))).
Proof. split; vm_compute; reflexivity. Qed.

(** * The builder as an object *)

Section HeapLaws.

Import BuilderHeap.

Variable StringToNumber : string -> option Z.

Lemma mk_exec (q : QueryBuilder.t) : QueryBuilder.mk (QueryBuilder.exec q) = q.
Proof. destruct q. reflexivity. Qed.

(** One call on the builder passed along as a value. *)
Lemma chain_pure_one (c : Call) (q : QueryBuilder.t) :
  chain_pure StringToNumber [c] q =
  match c with
  | Filter p => QueryBuilder.filter p q
  | Limit n => QueryBuilder.limit n q
  | Sort k o => QueryBuilder.sort StringToNumber k o q
  end.
Proof. destruct c; reflexivity. Qed.

Lemma fresh_array (h : Heap) : arrays h !! fresh (dom (arrays h)) = None.
Proof. apply not_elem_of_dom, is_fresh. Qed.

Lemma rebind_working (this : nat) (a : list Obj) (h : Heap) :
  working this (rebind this a h) = a.
Proof.
  unfold working, rebind, alloc. simpl.
  rewrite lookup_insert_eq, lookup_insert_eq. reflexivity.
Qed.

Lemma rebind_exec (this : nat) (a : list Obj) (h : Heap) :
  exec this (rebind this a h) = Some (fresh (dom (arrays h))).
Proof. unfold exec, rebind, alloc. simpl. apply lookup_insert_eq. Qed.

Lemma rebind_old (this : nat) (a : list Obj) (h : Heap) (r : nat) (x : list Obj) :
  arrays h !! r = Some x ->
  arrays (rebind this a h) !! r = Some x /\ r <> fresh (dom (arrays h)).
Proof.
  intros Hr. assert (Hne : r <> fresh (dom (arrays h))).
  { intros ->. rewrite fresh_array in Hr. discriminate. }
  split; [|exact Hne].
  unfold rebind, alloc. simpl. rewrite lookup_insert_ne by congruence. exact Hr.
Qed.

Lemma rebind_valid (this : nat) (a : list Obj) (h : Heap) :
  valid this (rebind this a h).
Proof.
  exists (fresh (dom (arrays h))), a. split; [apply rebind_exec|].
  unfold rebind, alloc. simpl. apply lookup_insert_eq.
Qed.

(** What one call does: it returns [this], leaves the builder valid, turns
    the working sequence into what the value-passing method computes, and
    changes no array other than the one [this.data] referred to. *)
Lemma call_spec (c : Call) (this : nat) (h : Heap) :
  valid this h ->
  fst (call StringToNumber c this h) = this /\
  valid this (snd (call StringToNumber c this h)) /\
  working this (snd (call StringToNumber c this h)) =
    QueryBuilder.exec (chain_pure StringToNumber [c] (QueryBuilder.mk (working this h))) /\
  (forall r x, arrays h !! r = Some x -> exec this h <> Some r ->
     arrays (snd (call StringToNumber c this h)) !! r = Some x /\
     exec this (snd (call StringToNumber c this h)) <> Some r).
Proof.
  intros (r0 & a0 & Ho & Ha). rewrite chain_pure_one.
  destruct c as [p | n | k o]; simpl.
  - split; [reflexivity|]. split; [apply rebind_valid|].
    split; [apply rebind_working|].
    intros r x Hr _. destruct (rebind_old this (List.filter p (working this h)) h r x Hr).
    split; [assumption|]. rewrite rebind_exec. congruence.
  - split; [reflexivity|]. split; [apply rebind_valid|].
    split; [apply rebind_working|].
    intros r x Hr _. destruct (rebind_old this (Js.slice 0 n (working this h)) h r x Hr).
    split; [assumption|]. rewrite rebind_exec. congruence.
  - rewrite Ho. split; [reflexivity|]. split.
    { exists r0. eexists. simpl. split; [exact Ho | apply lookup_insert_eq]. }
    split.
    { unfold working. simpl. rewrite Ho, lookup_insert_eq. reflexivity. }
    intros r x Hr Hne. unfold exec in *. simpl. split; [|exact Hne].
    rewrite lookup_insert_ne; [exact Hr|]. congruence.
Qed.

Lemma chain_pure_app (cs1 cs2 : list Call) (q : QueryBuilder.t) :
  chain_pure StringToNumber (cs1 ++ cs2) q =
  chain_pure StringToNumber cs2 (chain_pure StringToNumber cs1 q).
Proof.
  revert q. induction cs1 as [|[p | n | k o] cs1 IH]; intros q; simpl; auto.
Qed.

Lemma chain_spec (cs : list Call) (this : nat) (h : Heap) (old : gmap nat (list Obj)) :
  valid this h ->
  (forall r x, old !! r = Some x -> arrays h !! r = Some x /\ exec this h <> Some r) ->
  fst (chain StringToNumber cs this h) = this /\
  valid this (snd (chain StringToNumber cs this h)) /\
  working this (snd (chain StringToNumber cs this h)) =
    QueryBuilder.exec (chain_pure StringToNumber cs (QueryBuilder.mk (working this h))) /\
  (forall r x, old !! r = Some x ->
     arrays (snd (chain StringToNumber cs this h)) !! r = Some x).
Proof.
  revert h. induction cs as [|c cs IH]; intros h Hv Hold.
  - simpl. repeat split; auto. intros r x Hr. apply (Hold r x Hr).
  - cbn [chain].
    destruct (call_spec c this h Hv) as (Hthis & Hv' & Hw & Hother).
    destruct (call StringToNumber c this h) as [this' h'] eqn:E.
    cbn [fst snd] in Hthis, Hv', Hw, Hother. subst this'.
    destruct (IH h' Hv') as (H1 & H2 & H3 & H4).
    { intros r x Hr. destruct (Hold r x Hr) as [Ha Hne]. apply (Hother r x Ha Hne). }
    split; [exact H1|]. split; [exact H2|]. split; [|exact H4].
    rewrite H3, Hw.
    change (c :: cs) with ([c] ++ cs). rewrite chain_pure_app, mk_exec.
    reflexivity.
Qed.

(** X27.  Passing the builder along as a value is faithful to the object.
    Build a builder from an array of the heap and chain any calls of
    [filter], [limit] and [sort] on it: each call returns the builder itself,
    the array that [exec()] then returns holds what the same chain computes
    on the value-passing builder, and no array that existed before the
    builder was made has changed, the one handed to the constructor
    included. *)
Theorem builder_object_refines (cs : list Call) (data : nat) (h : Heap)
    (a : list Obj) :
  arrays h !! data = Some a ->
  fst (chain StringToNumber cs (fst (new data h)) (snd (new data h))) = fst (new data h) /\
  (exists r,
     exec (fst (new data h))
       (snd (chain StringToNumber cs (fst (new data h)) (snd (new data h)))) = Some r /\
     arrays (snd (chain StringToNumber cs (fst (new data h)) (snd (new data h)))) !! r =
       Some (QueryBuilder.exec
               (chain_pure StringToNumber cs (QueryBuilder.new a)))) /\
  (forall r x, arrays h !! r = Some x ->
     arrays (snd (chain StringToNumber cs (fst (new data h)) (snd (new data h)))) !! r =
       Some x).
Proof.
  intros Ha. unfold new. simpl. rewrite Ha. simpl.
  set (this := fresh (dom (objects h))).
  set (h1 := rebind this a h).
  destruct (chain_spec cs this h1 (arrays h) (rebind_valid this a h))
    as (H1 & (r & x & Hr & Hx) & H3 & H4).
  { intros r x Hr. destruct (rebind_old this a h r x Hr) as [Ho Hne].
    split; [exact Ho|]. unfold h1. rewrite rebind_exec. congruence. }
  split; [exact H1|]. split; [|exact H4].
  exists r. split; [exact Hr|].
  assert (Hwk : working this (snd (chain StringToNumber cs this h1)) = x).
  { unfold working. unfold exec in Hr. rewrite Hr, Hx. reflexivity. }
  rewrite Hx, <- Hwk, H3. unfold h1. rewrite rebind_working. reflexivity.
Qed.

(** X28.  The array that [exec()] returns is the builder's own working
    array.  A [sort] made afterwards reorders that very array; a [filter] or
    a [limit] made afterwards leaves it as it is and moves the builder to a
    new array. *)
Theorem exec_returns_working_array (this r : nat) (a : list Obj) (h : Heap)
    (k : string) (o : Order) (p : Obj -> bool) (n : Z) :
  exec this h = Some r ->
  arrays h !! r = Some a ->
  (arrays (snd (call StringToNumber (Sort k o) this h)) !! r =
     Some (Js.sort (QueryBuilder.compareFn StringToNumber k o) a) /\
   exec this (snd (call StringToNumber (Sort k o) this h)) = Some r) /\
  (arrays (snd (call StringToNumber (Filter p) this h)) !! r = Some a /\
   exec this (snd (call StringToNumber (Filter p) this h)) <> Some r) /\
  (arrays (snd (call StringToNumber (Limit n) this h)) !! r = Some a /\
   exec this (snd (call StringToNumber (Limit n) this h)) <> Some r).
Proof.
  intros Ho Ha. split; [|split].
  - unfold exec in *. simpl. rewrite Ho. simpl.
    rewrite lookup_insert_eq, Ha. auto.
  - cbn [call snd].
    destruct (rebind_old this (List.filter p (working this h)) h r a Ha) as [H1 H2].
    split; [exact H1|]. rewrite rebind_exec. congruence.
  - cbn [call snd].
    destruct (rebind_old this (Js.slice 0 n (working this h)) h r a Ha) as [H1 H2].
    split; [exact H1|]. rewrite rebind_exec. congruence.
Qed.

(** X29.  Branching from one builder does not give two builders.  Two calls
    made on the same builder both return that builder, and what the first
    "branch" shows after the second call is the effect of both calls in
    turn. *)
Theorem branches_share (c1 c2 : Call) (this : nat) (h : Heap) :
  valid this h ->
  let '(b1, h1) := call StringToNumber c1 this h in
  let '(b2, h2) := call StringToNumber c2 this h1 in
  b1 = this /\ b2 = this /\
  working b1 h2 =
    QueryBuilder.exec
      (chain_pure StringToNumber [c1; c2] (QueryBuilder.mk (working this h))).
Proof.
  intros Hv.
  destruct (call_spec c1 this h Hv) as (T1 & V1 & W1 & _).
  destruct (call StringToNumber c1 this h) as [b1 h1].
  cbn [fst snd] in T1, V1, W1. subst b1.
  destruct (call_spec c2 this h1 V1) as (T2 & _ & W2 & _).
  destruct (call StringToNumber c2 this h1) as [b2 h2].
  cbn [fst snd] in T2, W2. subst b2.
  split; [reflexivity|]. split; [reflexivity|].
  rewrite W2, W1.
  change [c1; c2] with ([c1] ++ [c2]). rewrite chain_pure_app, mk_exec.
  reflexivity.
Qed.

End HeapLaws.

(** * The demo *)

Lemma create_idle {I : Type} (schema : ZodSchema I)
    (uuid : string) (input : I) (parsed : Obj) (w : World) (data : list Obj) :
  idle w ->
  parse schema input = Some parsed ->
  stored (file w) = Ok data ->
  JsonFileStore.create schema uuid input w =
  (Ok (<["id" := JStr uuid]> parsed),
   add_log (EvWrite (data ++ [<["id" := JStr uuid]> parsed]))
     (set_file (Holds (JsonArray (data ++ [<["id" := JStr uuid]> parsed])))
        (add_log EvRead w))).
Proof.
  intros Hidle Hp Hs. unfold JsonFileStore.create. rewrite Hp. unfold bind.
  rewrite readFile_stored, Hs, spread_id.
  rewrite (writeFile_idle _ _ (idle_add_log EvRead w Hidle)). reflexivity.
Qed.

Lemma bind_read {A B : Type} (f : list Obj -> A) (k : A -> M B) (w : World) :
  bind (await data := JsonFileStore.readFile in ret (f data)) k w =
  match stored (file w) with
  | Ok data => k (f data) (add_log EvRead w)
  | Throw e => (Throw e, add_log EvRead w)
  | Pending => (Pending, add_log EvRead w)
  end.
Proof.
  unfold bind. rewrite readFile_stored.
  destruct (stored (file w)); reflexivity.
Qed.

Lemma todo_create_idle (now uuid title : string) (done : bool)
    (w : World) (data : list Obj) :
  idle w ->
  stored (file w) = Ok data ->
  JsonFileStore.create (Todo.TodoSchema now) uuid (Todo.todo title done) w =
  (Ok (Todo.stored_todo title done now uuid),
   add_log (EvWrite (data ++ [Todo.stored_todo title done now uuid]))
     (set_file (Holds (JsonArray (data ++ [Todo.stored_todo title done now uuid])))
        (add_log EvRead w))).
Proof.
  intros Hidle Hs.
  apply (create_idle (Todo.TodoSchema now) uuid (Todo.todo title done) _ w data Hidle);
    [reflexivity | exact Hs].
Qed.

Lemma stored_todo_done (title : string) (done : bool) (createdAt id : string) :
  Todo.stored_todo title done createdAt id !! "done" = Some (JBool done).
Proof.
  unfold Todo.stored_todo.
  rewrite !lookup_insert_ne by discriminate. apply lookup_insert_eq.
Qed.

Lemma stored_todo_createdAt (title : string) (done : bool) (createdAt id : string) :
  Todo.stored_todo title done createdAt id !! "createdAt" = Some (JStr createdAt).
Proof.
  unfold Todo.stored_todo.
  rewrite !lookup_insert_ne by discriminate. apply lookup_insert_eq.
Qed.

Lemma active_stored_todo (title : string) (done : bool) (createdAt id : string) :
  Todo.active (Todo.stored_todo title done createdAt id) = negb done /\
  Todo.finished (Todo.stored_todo title done createdAt id) = done.
Proof.
  unfold Todo.active, Todo.finished. rewrite stored_todo_done. auto.
Qed.

(** X30.  What the demo prints.  Run in an idle world on an absent or empty
    collection, with whatever identifiers and times the three [create] calls
    meet, [demo()] finds tasks A and C active, in that order, finds task B as
    the first done one, and its sorted and limited query returns C before A
    when A was created at an earlier time than C, and A before C otherwise
    (at equal times the sort keeps the stored order). *)
Theorem demo_prints (StringToNumber : string -> option Z)
    (id1 now1 id2 now2 id3 now3 : string) (w : World) :
  idle w ->
  fst (JsonFileStore.getAll w) = Ok [] ->
  fst (Todo.run_demo StringToNumber id1 now1 id2 now2 id3 now3 w) =
  Ok (Todo.mkPrinted
        [Todo.stored_todo "Task A" false now1 id1;
         Todo.stored_todo "Task C" false now3 id3]
        (Some (Todo.stored_todo "Task B" true now2 id2))
        (if String.ltb now1 now3
         then [Todo.stored_todo "Task C" false now3 id3;
               Todo.stored_todo "Task A" false now1 id1]
         else [Todo.stored_todo "Task A" false now1 id1;
               Todo.stored_todo "Task C" false now3 id3])).
Proof.
  read_only. simpl. intros Hidle Hs. unfold Todo.run_demo.
  set (A := Todo.stored_todo "Task A" false now1 id1).
  set (B := Todo.stored_todo "Task B" true now2 id2).
  set (C := Todo.stored_todo "Task C" false now3 id3).
  unfold bind at 1. rewrite (todo_create_idle now1 id1 "Task A" false w [] Hidle Hs).
  unfold bind at 1. rewrite (todo_create_idle now2 id2 "Task B" true _ [A]);
    [|exact Hidle|reflexivity].
  unfold bind at 1. rewrite (todo_create_idle now3 id3 "Task C" false _ [A; B]);
    [|exact Hidle|reflexivity].
  fold A B C. cbn [app].
  unfold JsonFileStore.find, JsonFileStore.first, JsonFileStore.query.
  rewrite bind_read. cbn [file add_log set_file stored].
  rewrite bind_read. cbn [file add_log set_file stored].
  rewrite bind_read. cbn [file add_log set_file stored fst snd ret].
  destruct (active_stored_todo "Task A" false now1 id1) as [aA fA].
  destruct (active_stored_todo "Task B" true now2 id2) as [aB fB].
  destruct (active_stored_todo "Task C" false now3 id3) as [aC fC].
  fold A in aA, fA. fold B in aB, fB. fold C in aC, fC.
  unfold QueryBuilder.exec, QueryBuilder.limit, QueryBuilder.sort,
    QueryBuilder.filter, QueryBuilder.new.
  cbn [QueryBuilder.data List.filter List.find Js.sort Js.sort_insert].
  rewrite aA, aB, aC, fA, fB. cbn [negb Js.sort Js.sort_insert].
  f_equal. f_equal.
  assert (HA : A !! "createdAt" = Some (JStr now1)) by apply stored_todo_createdAt.
  assert (HC : C !! "createdAt" = Some (JStr now3)) by apply stored_todo_createdAt.
  unfold QueryBuilder.compareFn, Js.gt, Js.lt. rewrite !HA, !HC.
  destruct (String.ltb now1 now3); [reflexivity|].
  destruct (String.ltb now3 now1); reflexivity.
Qed.

(** * Instances on the demo's store *)

Lemma three_unique : unique_ids Todo.three.
Proof.
  unfold unique_ids. apply (bool_decide_unpack _). vm_compute. exact I.
Qed.

Lemma three_well_formed : Forall Todo.well_formed Todo.three.
Proof.
  vm_compute. repeat constructor; eexists; reflexivity.
Qed.


Lemma sort_stable_witness :
  List.filter (has_value "createdAt" (Some (JStr "2024-01-01T00:00:00.000Z")))
    (QueryBuilder.exec
       (QueryBuilder.sort Todo.not_numeric "createdAt" desc (QueryBuilder.new Todo.three))) =
  List.filter (has_value "createdAt" (Some (JStr "2024-01-01T00:00:00.000Z")))
    (QueryBuilder.exec (QueryBuilder.new Todo.three)).
Proof.
  apply (sort_stable Todo.not_numeric "createdAt" desc
           (Some (JStr "2024-01-01T00:00:00.000Z")) (QueryBuilder.new Todo.three)).
  exact three_have_createdAt.
Defined.



Lemma update_invalid_no_write_witness :
  JsonFileStore.update Todo.later "id-b" Todo.bad_input Todo.after_demo =
  (Throw ZodError, add_log EvRead Todo.after_demo).
Proof.
  apply (update_invalid_no_write Todo.later "id-b" Todo.bad_input Todo.task_b
           Todo.after_demo).
  - vm_compute. reflexivity.
  - vm_compute. reflexivity.
Defined.

Lemma write_failure_propagates_witness :
  fst (JsonFileStore.delete "id-b" Todo.disk_full) = Throw (FsError "ENOSPC").
Proof.
  pose proof (write_failure_propagates Todo.later Todo.disk_full
                (mkFailure "ENOSPC" (Some EmptyText)) Todo.three) as H.
  destruct H as (_ & Hd & _).
  - reflexivity.
  - reflexivity.
  - vm_compute. reflexivity.
  - rewrite (Hd "id-b"); [reflexivity|]. vm_compute. reflexivity.
Defined.

Lemma create_waits_for_lock_witness :
  fst (JsonFileStore.create Todo.later "id-d" (Todo.todo "Task D" false) Todo.busy) =
    Pending /\
  file (snd (JsonFileStore.create Todo.later "id-d" (Todo.todo "Task D" false) Todo.busy)) =
    file Todo.busy.
Proof.
  destruct (create_waits_for_lock Todo.later "id-d" (Todo.todo "Task D" false)
              (<["title" := JStr "Task D"]> (<["done" := JBool false]>
                 (<["createdAt" := JStr "2024-01-01T00:00:03.000Z"]> ∅)))
              Todo.busy Todo.three)
    as (H1 & H2 & _).
  - reflexivity.
  - vm_compute. reflexivity.
  - vm_compute. reflexivity.
  - split; assumption.
Defined.

Lemma lock_released_witness :
  lock (snd (JsonFileStore.delete "id-b" Todo.disk_full)) = WriteLock.new.
Proof.
  refine (proj2 (proj2 (lock_released Todo.later Todo.disk_full "id-d" "id-b"
                          (Todo.todo "Task D" false) Todo.tick _))).
  reflexivity.
Defined.

Lemma ids_stay_unique_witness :
  exists data',
    fst (JsonFileStore.getAll
           (snd (JsonFileStore.create Todo.later "id-d" (Todo.todo "Task D" false)
                   Todo.after_demo))) = Ok data' /\
    unique_ids data'.
Proof.
  destruct (ids_stay_unique Todo.later Todo.after_demo Todo.three) as (Hc & _ & _).
  - vm_compute. reflexivity.
  - exact three_unique.
  - apply (Hc "id-d" (Todo.todo "Task D" false)
             (Todo.stored_todo "Task D" false "2024-01-01T00:00:03.000Z" "id-d")).
    + vm_compute. reflexivity.
    + vm_compute. reflexivity.
Defined.

Lemma lost_update_witness :
  fst (Overlap.both_read_first Todo.later "id-a" Todo.rename "id-a" Todo.tick
         Todo.after_demo) = Ok (Some Todo.renamed_a, Some Todo.ticked_a) /\
  file (snd (Overlap.both_read_first Todo.later "id-a" Todo.rename "id-a" Todo.tick
               Todo.after_demo)) =
  file (snd (JsonFileStore.update Todo.later "id-a" Todo.tick Todo.after_demo)).
Proof.
  apply (lost_update Todo.later "id-a" "id-a" Todo.rename Todo.tick
           Todo.renamed_a Todo.ticked_a Todo.after_demo).
  - split; reflexivity.
  - vm_compute. reflexivity.
  - vm_compute. reflexivity.
Defined.

(** After the overlapping calls the stored task A is ticked but not renamed. *)
Example lost_update_title :
  Todo.out_titles
    (fst (JsonFileStore.getAll
            (snd (Overlap.both_read_first Todo.later "id-a" Todo.rename "id-a" Todo.tick
                    Todo.after_demo)))) =
  Some [Some (JStr "Task A"); Some (JStr "Task B"); Some (JStr "Task C")].
Proof. vm_compute. reflexivity. Qed.

Lemma todo_parse_idempotent_witness :
  Todo.parse "2024-01-01T00:00:09.000Z"
    (<["title" := JStr "Task A"]> (<["done" := JBool false]>
       (<["createdAt" := JStr "2024-01-01T00:00:00.000Z"]> ∅))) =
  Some (<["title" := JStr "Task A"]> (<["done" := JBool false]>
          (<["createdAt" := JStr "2024-01-01T00:00:00.000Z"]> ∅))).
Proof.
  apply (todo_parse_idempotent "2024-01-01T00:00:00.000Z" "2024-01-01T00:00:09.000Z"
           (Todo.todo "Task A" false)).
  reflexivity.
Defined.

Lemma todo_update_merges_witness :
  fst (JsonFileStore.getById "id-a"
         (snd (Runtime.update (TodoRt.later zod3) "id-a" TodoRt.untitle
                 Todo.after_demo))) =
  Ok (Some (Runtime.to_json TodoRt.untitled_a)).
Proof.
  refine (proj1 (proj2 (proj2 (todo_update_merges zod3 "2024-01-01T00:00:03.000Z"
    "id-a" TodoRt.untitle TodoRt.task_a TodoRt.untitled_a Todo.after_demo _ _ _)))).
  - vm_compute. reflexivity.
  - vm_compute. reflexivity.
Defined.

Lemma todo_store_well_formed_witness :
  exists data',
    fst (JsonFileStore.getAll
           (snd (Runtime.update (TodoRt.later zod4) "id-a" TodoRt.tick
                   Todo.after_demo))) = Ok data' /\
    Forall Todo.well_formed data'.
Proof.
  destruct (todo_store_well_formed zod4 "2024-01-01T00:00:03.000Z" Todo.after_demo
              Todo.three) as (_ & Hu & _).
  - vm_compute. reflexivity.
  - exact three_well_formed.
  - apply (Hu "id-a" TodoRt.tick (Some (Runtime.of_json Todo.ticked_a))).
    + vm_compute. repeat constructor; intros H; discriminate H.
    + vm_compute. reflexivity.
Defined.

Lemma builder_object_refines_witness :
  fst (BuilderHeap.chain Todo.not_numeric
         [BuilderHeap.Filter Todo.not_done; BuilderHeap.Sort "createdAt" desc;
          BuilderHeap.Limit 1]
         Todo.builder1 Todo.heap1) = Todo.builder1 /\
  BuilderHeap.arrays
    (snd (BuilderHeap.chain Todo.not_numeric
            [BuilderHeap.Filter Todo.not_done; BuilderHeap.Sort "createdAt" desc;
             BuilderHeap.Limit 1]
            Todo.builder1 Todo.heap1)) !! 0%nat = Some Todo.three.
Proof.
  destruct (builder_object_refines Todo.not_numeric
              [BuilderHeap.Filter Todo.not_done; BuilderHeap.Sort "createdAt" desc;
               BuilderHeap.Limit 1]
              0%nat Todo.heap0 Todo.three)
    as (H1 & _ & H3).
  - reflexivity.
  - split; [exact H1|]. apply (H3 0%nat Todo.three). reflexivity.
Defined.

Lemma exec_returns_working_array_witness :
  exists r,
    BuilderHeap.exec Todo.builder1 Todo.heap1 = Some r /\
    BuilderHeap.arrays
      (snd (BuilderHeap.call Todo.not_numeric (BuilderHeap.Sort "createdAt" desc)
              Todo.builder1 Todo.heap1)) !! r =
    Some (Js.sort (QueryBuilder.compareFn Todo.not_numeric "createdAt" desc) Todo.three).
Proof.
  exists 1%nat. split; [reflexivity|].
  refine (proj1 (proj1 (exec_returns_working_array Todo.not_numeric Todo.builder1 1%nat
    Todo.three Todo.heap1 "createdAt" desc Todo.not_done 1 _ _))).
  - reflexivity.
  - vm_compute. reflexivity.
Defined.

Lemma branches_share_witness :
  BuilderHeap.working Todo.builder1
    (snd (BuilderHeap.call Todo.not_numeric (BuilderHeap.Filter Todo.is_done) Todo.builder1
       (snd (BuilderHeap.call Todo.not_numeric (BuilderHeap.Filter Todo.not_done)
               Todo.builder1 Todo.heap1)))) = [].
Proof.
  pose proof (branches_share Todo.not_numeric (BuilderHeap.Filter Todo.not_done)
                (BuilderHeap.Filter Todo.is_done) Todo.builder1 Todo.heap1) as H.
  cbn [BuilderHeap.call] in H.
  destruct H as (_ & _ & H).
  - exists 1%nat, Todo.three. split; [reflexivity | vm_compute; reflexivity].
  - refine (eq_trans H _). vm_compute. reflexivity.
Defined.

Lemma demo_prints_witness :
  fst (Todo.run_demo Todo.not_numeric
         "id-a" "2024-01-01T00:00:00.000Z" "id-b" "2024-01-01T00:00:01.000Z"
         "id-c" "2024-01-01T00:00:02.000Z" Todo.fresh) =
  Ok (Todo.mkPrinted
        [Todo.stored_todo "Task A" false "2024-01-01T00:00:00.000Z" "id-a";
         Todo.stored_todo "Task C" false "2024-01-01T00:00:02.000Z" "id-c"]
        (Some (Todo.stored_todo "Task B" true "2024-01-01T00:00:01.000Z" "id-b"))
        [Todo.stored_todo "Task C" false "2024-01-01T00:00:02.000Z" "id-c";
         Todo.stored_todo "Task A" false "2024-01-01T00:00:00.000Z" "id-a"]).
Proof.
  refine (demo_prints Todo.not_numeric
         "id-a" "2024-01-01T00:00:00.000Z" "id-b" "2024-01-01T00:00:01.000Z"
         "id-c" "2024-01-01T00:00:02.000Z" Todo.fresh _ _).
  - split; reflexivity.
  - reflexivity.
Defined.
